(** * Cyberpunk Task Board: the board state of [cyberpunk_tasks.py]

    A shallow embedding of the data side of the Tkinter task board: the two
    lists [tasks] and [completed] of [TaskBoardApp], the [TaskCard] objects
    they share with the widgets, and the JSON file the board is saved to.

    What is modelled and how:
    - a [TaskCard] is a Python object compared by identity ([TaskCard] defines
      no [__eq__]); it is an address into a heap of card objects, and the two
      lists hold addresses.  [edit] mutates the object in place;
    - a card's [text] is whatever Python value it was given: a [str] from the
      dialogs, any JSON-decoded value from [load_state];
    - the disk is described by what [open] followed by [json.load] does on it:
      the file is missing, or reading or decoding it raises, or it decodes to
      a value.  [json.dump] followed by [json.load] is taken to return the
      value dumped (both belong to the Python standard library);
    - a write may fail; [save_state] swallows the exception.  The outcome of
      the write is an input of every function that saves;
    - widget calls that touch no data ([pack], [destroy], [configure],
      [notebook.select], [refresh_scrollregions], [repack_task_cards]) are
      left out; the geometry read by [on_drag_motion] is an input.  So is
      [on_close], a last [save_state] before the window goes.

    That is the board the first part of the file is about.  The second part
    ("The rest of the program") adds a drag as a whole, [on_close], the mouse
    wheel, and in [Gui] the widgets of the cards: packing, destroying,
    bindings and labels, with the same handlers acting on both. *)

From Stdlib Require Import ZArith NArith QArith Qround List Bool Lia String Ascii.
From stdpp Require Import base list.
Import ListNotations.

Local Open Scope nat_scope.
Local Set Warnings "-register-all".

(** ** Python values *)

(** A [str] is a sequence of Unicode code points. *)
Definition char := N.
Definition str := list char.

(** An ASCII literal as a [str]. *)
Definition py (s : string) : str :=
  map (fun a => N.of_nat (nat_of_ascii a)) (list_ascii_of_string s).
Global Arguments py : simpl never.

(** [str.isspace] on one code point (CPython's [_PyUnicode_IsWhitespace]). *)
Definition isspace (c : char) : bool :=
  ((9 <=? c) && (c <=? 13) || (28 <=? c) && (c <=? 32)
   || (c =? 133) || (c =? 160) || (c =? 5760)
   || (8192 <=? c) && (c <=? 8202)
   || (c =? 8232) || (c =? 8233) || (c =? 8239) || (c =? 8287)
   || (c =? 12288))%N.

Fixpoint lstrip (s : str) : str :=
  match s with
  | [] => []
  | c :: rest => if isspace c then lstrip rest else s
  end.

Definition rstrip (s : str) : str := rev (lstrip (rev s)).

(** [s.strip()] *)
Definition strip (s : str) : str := rstrip (lstrip s).

(** The values [json.load] produces ([float] left out: it is one more scalar
    that cannot be iterated).  A [dict] keeps its insertion order; its keys
    are pairwise different. *)
Inductive value :=
| VNone
| VBool (b : bool)
| VInt (n : Z)
| VStr (s : str)
| VList (l : list value)
| VDict (d : list (str * value)).

(** [d.get(key, default)] *)
Fixpoint dict_get (d : list (str * value)) (key : str) (default : value) : value :=
  match d with
  | [] => default
  | (k, v) :: rest => if decide (k = key) then v else dict_get rest key default
  end.

(** [for x in v]: the elements of a list, the characters of a [str], the keys
    of a [dict]; [None] stands for the [TypeError] of a value that is not
    iterable. *)
Definition py_iter (v : value) : option (list value) :=
  match v with
  | VList l => Some l
  | VStr s => Some (map (fun c => VStr [c]) s)
  | VDict d => Some (map (fun kv => VStr (fst kv)) d)
  | VNone | VBool _ | VInt _ => None
  end.

(** [if text:] on the answer of [simpledialog.askstring], which is [None]
    when the dialog is cancelled. *)
Definition truthy (answer : option str) : bool :=
  match answer with
  | Some (_ :: _) => true
  | Some [] | None => false
  end.

(** ** Python list operations *)

(** [l.remove(x)]: the first occurrence goes.  Every call in the source is
    guarded by [x in l]. *)
Fixpoint py_remove `{EqDecision A} (x : A) (l : list A) : list A :=
  match l with
  | [] => []
  | y :: rest => if decide (y = x) then rest else y :: py_remove x rest
  end.

(** [l.index(x)]; [None] stands for [ValueError]. *)
Fixpoint py_index `{EqDecision A} (x : A) (l : list A) : option Z :=
  match l with
  | [] => None
  | y :: rest => if decide (y = x) then Some 0%Z
                 else (fun i => (i + 1)%Z) <$> py_index x rest
  end.

(** A negative index counts from the end. *)
Definition norm_index (n : nat) (i : Z) : Z :=
  if (i <? 0)%Z then (i + Z.of_nat n)%Z else i.

(** [l.pop(i)]; [None] stands for [IndexError]. *)
Definition py_pop {A} (i : Z) (l : list A) : option (A * list A) :=
  let j := norm_index (length l) i in
  if (j <? 0)%Z then None
  else match l !! Z.to_nat j with
       | Some x => Some (x, delete (Z.to_nat j) l)
       | None => None
       end.

(** [l.insert(i, x)]: an index out of range is clamped. *)
Definition py_insert {A} (i : Z) (x : A) (l : list A) : list A :=
  let j := norm_index (length l) i in
  let k := if (j <? 0)%Z then 0 else Z.to_nat j in
  take k l ++ x :: drop k l.

(** ** The board *)

(** A card is the address of its object. *)
Abbreviation card := nat (only parsing).

Record card_obj := {
  text : value;
  drag_index : option Z          (* [self._drag_index] *)
}.

Global Instance card_obj_inhabited : Inhabited card_obj :=
  populate {| text := VNone; drag_index := None |}.

(** What is on disk at [tasks.json], if anything. *)
Inductive file_content :=
| Unreadable                      (* [open] or [json.load] raises *)
| Json (data : value).            (* [json.load] returns [data] *)

(** How a write ends: done, or an exception after which the file is in the
    state [remains] (untouched, truncated, ...). *)
Inductive write_outcome :=
| Written
| WriteFailed (remains : option file_content).

Record app := {
  tasks : list card;             (* [self.tasks] *)
  completed : list card;         (* [self.completed] *)
  heap : list card_obj;          (* the [TaskCard] objects, by address *)
  data_file : option file_content
}.

Definition set_tasks (l : list card) (s : app) : app :=
  {| tasks := l; completed := completed s; heap := heap s; data_file := data_file s |}.
Definition set_completed (l : list card) (s : app) : app :=
  {| tasks := tasks s; completed := l; heap := heap s; data_file := data_file s |}.
Definition set_heap (h : list card_obj) (s : app) : app :=
  {| tasks := tasks s; completed := completed s; heap := h; data_file := data_file s |}.
Definition set_data_file (f : option file_content) (s : app) : app :=
  {| tasks := tasks s; completed := completed s; heap := heap s; data_file := f |}.

(** [card.text] *)
Definition text_of (s : app) (c : card) : value := text (heap s !!! c).

(** [[card.text for card in cards]] *)
Definition texts (s : app) (cards : list card) : list value := map (text_of s) cards.

(** [self.text = t] *)
Definition set_text (c : card) (t : value) (s : app) : app :=
  set_heap (<[c := {| text := t; drag_index := drag_index (heap s !!! c) |}]> (heap s)) s.

(** [self._drag_index = d] *)
Definition set_drag_index (c : card) (d : option Z) (s : app) : app :=
  set_heap (<[c := {| text := text (heap s !!! c); drag_index := d |}]> (heap s)) s.

(** [TaskCard(app, parent, text)]: a new object, at a new address. *)
Definition new_obj (t : value) : card_obj := {| text := t; drag_index := None |}.

Definition TaskCard (t : value) (s : app) : card * app :=
  (length (heap s), set_heap (heap s ++ [new_obj t]) s).

(** *** Persistence *)

Definition save_data (s : app) : value :=
  VDict [ (py "tasks", VList (texts s (tasks s)));
          (py "completed", VList (texts s (completed s))) ].

Definition save_state (io : write_outcome) (s : app) : app :=
  match io with
  | Written => set_data_file (Some (Json (save_data s))) s
  | WriteFailed remains => set_data_file remains s          (* [except Exception: pass] *)
  end.

(** *** Task operations *)

Definition add_task (t : value) (save : bool) (io : write_outcome) (s : app) : card * app :=
  let (c, s1) := TaskCard t s in
  let s2 := set_tasks (tasks s1 ++ [c]) s1 in
  (c, if save then save_state io s2 else s2).

Definition add_completed_task (t : value) (save : bool) (io : write_outcome) (s : app)
  : card * app :=
  let (c, s1) := TaskCard t s in
  let s2 := set_completed (completed s1 ++ [c]) s1 in
  (c, if save then save_state io s2 else s2).

Definition add_task_dialog (answer : option str) (io : write_outcome) (s : app) : app :=
  match answer with
  | Some t => if truthy answer then snd (add_task (VStr (strip t)) true io s) else s
  | None => s
  end.

Definition complete (self : card) (save : bool) (io : write_outcome) (s : app) : app :=
  let s1 := snd (add_completed_task (text_of s self) false io s) in
  let s2 := if decide (self ∈ tasks s1)
            then set_tasks (py_remove self (tasks s1)) s1 else s1 in
  if save then save_state io s2 else s2.

(** [TaskCard.delete] (the name [delete] is stdpp's). *)
Definition delete_card (self : card) (io : write_outcome) (s : app) : app :=
  let s1 := if decide (self ∈ tasks s)
            then set_tasks (py_remove self (tasks s)) s
            else if decide (self ∈ completed s)
                 then set_completed (py_remove self (completed s)) s
                 else s in
  save_state io s1.

Definition edit (self : card) (answer : option str) (io : write_outcome) (s : app) : app :=
  match answer with
  | Some new_text =>
      if truthy answer
      then save_state io (set_text self (VStr (strip new_text)) s)
      else s
  | None => s
  end.

Definition restore (self : card) (save : bool) (io : write_outcome) (s : app) : app :=
  let s1 := if decide (self ∈ completed s)
            then set_completed (py_remove self (completed s)) s else s in
  let s2 := snd (add_task (text_of s1 self) false io s1) in
  if save then save_state io s2 else s2.

(** *** Loading and start-up *)

(** The body of a [for text in ...: self.add_task(text, save=False)] loop
    (nothing is written, whatever outcome is passed along). *)
Definition add_tasks (ts : list value) (s : app) : app :=
  foldl (fun s t => snd (add_task t false Written s)) s ts.

Definition add_completed_tasks (ts : list value) (s : app) : app :=
  foldl (fun s t => snd (add_completed_task t false Written s)) s ts.

(** [load_state]: the flag returned and the board as the call leaves it.  An
    exception is caught wherever it is raised, after the cards added so
    far. *)
Definition load_state (s : app) : bool * app :=
  match data_file s with
  | None => (false, s)                                (* [not exists()] *)
  | Some Unreadable => (false, s)
  | Some (Json (VDict d)) =>
      match py_iter (dict_get d (py "tasks") (VList [])) with
      | None => (false, s)
      | Some ts =>
          let s1 := add_tasks ts s in
          match py_iter (dict_get d (py "completed") (VList [])) with
          | None => (false, s1)
          | Some cs => (true, add_completed_tasks cs s1)
          end
      end
  | Some (Json _) => (false, s)                       (* no [.get]: AttributeError *)
  end.

Definition default_tasks : list str :=
  [ py "Patch proxies to 12.2.18";
    py "Prepare AI Steering Committee slides";
    py "Finish CrowdStrike DFD";
    py "Schedule PCI policy review" ].

(** A process that has just started: no cards yet, the disk as found. *)
Definition fresh (disk : option file_content) : app :=
  {| tasks := []; completed := []; heap := []; data_file := disk |}.

(** [TaskBoardApp.__init__], the part after the widgets are built. *)
Definition init (disk : option file_content) (io : write_outcome) : app :=
  let (found, s) := load_state (fresh disk) in
  if found then s
  else save_state io (add_tasks (map VStr default_tasks) s).

(** *** Drag and drop *)

Definition on_drag_start (self : card) (s : app) : app :=
  set_drag_index self (py_index self (tasks s)) s.

Definition Qlt_bool (x y : Q) : bool := negb (Qle_bool y x).

(** [y + h / 2] with [h = winfo_height() or 1]; the true division of two
    integers is a half-integer, exact as a float at pixel sizes. *)
Definition y_center (winfo_y winfo_height : card -> Z) (c : card) : Q :=
  let y := winfo_y c in
  let h := if (winfo_height c =? 0)%Z then 1%Z else winfo_height c in
  (inject_Z y + inject_Z h / 2)%Q.

(** The [for i, c_y in enumerate(y_centers)] loop, from index [i] on: the
    index at which it breaks, if it does. *)
Fixpoint first_above (pointer_y : Z) (i : Z) (y_centers : list Q) : option Z :=
  match y_centers with
  | [] => None
  | c_y :: rest =>
      if Qlt_bool (inject_Z pointer_y) c_y then Some i
      else first_above pointer_y (i + 1) rest
  end.

Definition target_index (winfo_y winfo_height : card -> Z) (pointer_y : Z)
    (cards : list card) : Z :=
  let y_centers := map (y_center winfo_y winfo_height) cards in
  match first_above pointer_y 0 y_centers with
  | Some i => i
  | None => (Z.of_nat (length cards) - 1)%Z             (* the loop's [else] *)
  end.

Inductive exn := IndexError.

Inductive outcome :=
| Returns (s : app)
| Raises (e : exn).

Definition on_drag_motion (self : card) (winfo_y winfo_height : card -> Z)
    (pointery rooty : Z) (s : app) : outcome :=
  match drag_index (heap s !!! self) with
  | None => Returns s
  | Some d =>
      let pointer_y := (pointery - rooty)%Z in
      let cards := tasks s in
      let t := target_index winfo_y winfo_height pointer_y cards in
      if (t =? d)%Z then Returns s
      else match py_pop d cards with
           | None => Raises IndexError
           | Some (c, cards') =>
               Returns (set_drag_index self (Some t) (set_tasks (py_insert t c cards') s))
           end
  end.

Definition on_drag_release (self : card) (io : write_outcome) (s : app) : app :=
  save_state io (set_drag_index self None s).

(** *** The event loop *)

(** What the user can do; each handler saves at most once. *)
Inductive event :=
| AddTaskDialog (answer : option str)
| Edit (self : card) (answer : option str)
| Complete (self : card)
| Restore (self : card)
| Delete (self : card)
| DragStart (self : card)
| DragMotion (self : card) (winfo_y winfo_height : card -> Z) (pointery rooty : Z)
| DragRelease (self : card).

Definition handle (ev : event) (io : write_outcome) (s : app) : outcome :=
  match ev with
  | AddTaskDialog answer => Returns (add_task_dialog answer io s)
  | Edit self answer => Returns (edit self answer io s)
  | Complete self => Returns (complete self true io s)
  | Restore self => Returns (restore self true io s)
  | Delete self => Returns (delete_card self io s)
  | DragStart self => Returns (on_drag_start self s)
  | DragMotion self wy wh py ry => on_drag_motion self wy wh py ry s
  | DragRelease self => Returns (on_drag_release self io s)
  end.

(** The card an event is bound to, if any. *)
Definition target (ev : event) : option card :=
  match ev with
  | AddTaskDialog _ => None
  | Edit c _ | Complete c | Restore c | Delete c
  | DragStart c | DragMotion c _ _ _ _ | DragRelease c => Some c
  end.

(** An event reaches a handler of a card that exists. *)
Definition bound (ev : event) (s : app) : Prop :=
  match target ev with
  | Some c => c < length (heap s)
  | None => True
  end.

(** The event loop: the events handled and how each write ended.  A handler
    that raises changes nothing before it does (only [on_drag_motion] can, at
    its [pop]); Tk reports the exception and the loop goes on with the board
    as it was, so such a turn adds no state and is not recorded.  [bound]
    asks no more than that the card exists: the GUI delivers fewer events (it
    offers no button of a card that is gone), so every board the program
    shows is among those reached here. *)
Inductive run : app -> list (event * write_outcome) -> app -> Prop :=
| run_nil s : run s [] s
| run_cons s ev io s' evs s'' :
    bound ev s -> handle ev io s = Returns s' -> run s' evs s'' ->
    run s ((ev, io) :: evs) s''.

(** The boards a run of the program can be in. *)
Definition reachable (s : app) : Prop :=
  exists disk io evs, run (init disk io) evs s.

(** ** Predicates of the specification *)

(** [key in d] *)
Definition dict_has (d : list (str * value)) (key : str) : bool :=
  existsb (fun kv => bool_decide (fst kv = key)) d.

(** "empty or whitespace-only": nothing is left after trimming. *)
Definition blank (s : str) : bool := forallb isspace s.

(** "a non-empty string after trimming" *)
Definition text_ok (v : value) : bool :=
  match v with
  | VStr s => negb (blank s)
  | _ => false
  end.

(** The pointer is above the middle of the card (screen coordinates grow
    downwards). *)
Definition above (winfo_y winfo_height : card -> Z) (pointer_y : Z) (c : card) : Prop :=
  (inject_Z pointer_y < y_center winfo_y winfo_height c)%Q.

(** Every card object carries a text that is fine. *)
Definition texts_ok (s : app) : Prop :=
  Forall (fun o => text_ok (text o) = true) (heap s).

(** An answer to a dialog that is cancelled, empty, or not blank. *)
Definition answer_ok (ev : event) : Prop :=
  match ev with
  | AddTaskDialog (Some t) | Edit _ (Some t) => t = [] \/ blank t = false
  | _ => True
  end.

(** Every card created so far is in one of the two lists. *)
Definition all_listed (s : app) : Prop :=
  forall c : card, c < length (heap s) -> c ∈ tasks s ++ completed s.

(** Every card of the two lists exists and sits in one place only. *)
Definition wf (s : app) : Prop :=
  NoDup (tasks s ++ completed s) ∧
  Forall (fun c => c < length (heap s)) (tasks s ++ completed s).

(** ** The rest of the program *)

(** *** A drag: motion events in a row *)

(** What [on_drag_motion] reads from the screen at one [<B1-Motion>]. *)
Record motion := {
  m_winfo_y : card -> Z;
  m_winfo_height : card -> Z;
  m_pointery : Z;
  m_rooty : Z
}.

Fixpoint drag_motions (self : card) (moves : list motion) (s : app) : outcome :=
  match moves with
  | [] => Returns s
  | m :: rest =>
      match on_drag_motion self (m_winfo_y m) (m_winfo_height m)
              (m_pointery m) (m_rooty m) s with
      | Returns s' => drag_motions self rest s'
      | Raises e => Raises e
      end
  end.

(** The card is being dragged: [_drag_index] is where it is in [tasks]. *)
Definition dragging (self : card) (s : app) : Prop :=
  self < length (heap s) /\ NoDup (tasks s) /\
  exists n : nat, tasks s !! n = Some self /\
                  drag_index (heap s !!! self) = Some (Z.of_nat n).

(** *** The mouse wheel *)

(** [int(x)] on a float: the fraction is dropped. *)
Definition py_int (q : Q) : Z := if Qle_bool 0 q then Qfloor q else Qceiling q.

(** [int(-1 * (event.delta / 120))] in [ScrollableArea._on_mousewheel], the
    number of units handed to [yview_scroll].  The quotient is a float; for
    a [delta] of 32 bits it is closer to the rational than to any integer it
    is not equal to, so dropping the fraction gives the same integer. *)
Definition mousewheel_units (delta : Z) : Z :=
  py_int (-1 * (inject_Z delta / 120))%Q.

(** [TaskBoardApp.on_close], the window apart. *)
Definition on_close (io : write_outcome) (s : app) : app := save_state io s.

(** The handlers that end in [save_state]. *)
Definition saves (ev : event) : bool :=
  match ev with
  | AddTaskDialog answer | Edit _ answer => truthy answer
  | Complete _ | Restore _ | Delete _ | DragRelease _ => true
  | DragStart _ | DragMotion _ _ _ _ _ => false
  end.

(** Which cards have the same text before and after. *)
Definition same_texts (s s' : app) (keep : card -> Prop) : Prop :=
  forall c : card, c < length (heap s) -> keep c -> text_of s' c = text_of s c.

(** A string that neither starts nor ends with whitespace. *)
Definition trimmed (t : str) : Prop :=
  (forall c rest, t = c :: rest -> isspace c = false) /\
  (forall c front, t = front ++ [c] -> isspace c = false).

(** *** The widgets of the cards *)

(** The data above is what the claims are about.  [Gui] adds what the same
    functions do to the widgets: where each card's frame is packed, whether
    it has been destroyed, which bindings it has, what its label shows.  Tk
    is taken to work as documented: [pack] appends a widget that is not
    packed and leaves a packed one where it is, [pack_forget] and [destroy]
    take it out of the packing order, a destroyed widget stays destroyed,
    and configuring, packing or measuring one raises [TclError]. *)
Module Gui.

Inductive area := ActiveArea | CompletedArea.      (* [active_area.inner], [completed_area.inner] *)
Inductive color := NEON_CYAN | NEON_MAGENTA | NEON_LIME.
Inductive command := run_complete | run_restore.

Record card_widgets := {
  parent_frame : area;
  destroyed : bool;               (* [shadow.destroy()] has run *)
  shadow_bg : color;
  title_text : value;             (* what the label shows *)
  drag_bound : bool;              (* the three drag bindings *)
  complete_btn : command          (* the command of the [-] / [+] button *)
}.

#[global] Instance card_widgets_inhabited : Inhabited card_widgets :=
  populate {| parent_frame := ActiveArea; destroyed := true; shadow_bg := NEON_CYAN;
              title_text := VNone; drag_bound := false; complete_btn := run_complete |}.

Record gui := {
  board : app;
  widgets : list card_widgets;    (* by card, as the heap *)
  active_slaves : list card;      (* packing order of [active_area.inner] *)
  completed_slaves : list card    (* packing order of [completed_area.inner] *)
}.

Inductive tkexn := TclError | Py (e : exn).

(** A call returns, or raises with the state as it is then. *)
Inductive tkres :=
| Done (g : gui)
| Fail (e : tkexn) (g : gui).

Definition and_then (r : tkres) (k : gui -> tkres) : tkres :=
  match r with
  | Done g => k g
  | Fail e g => Fail e g
  end.

Definition state_of (r : tkres) : gui :=
  match r with
  | Done g | Fail _ g => g
  end.

Definition set_board (b : app) (g : gui) : gui :=
  {| board := b; widgets := widgets g;
     active_slaves := active_slaves g; completed_slaves := completed_slaves g |}.
Definition set_widgets (ws : list card_widgets) (g : gui) : gui :=
  {| board := board g; widgets := ws;
     active_slaves := active_slaves g; completed_slaves := completed_slaves g |}.

Definition slaves (a : area) (g : gui) : list card :=
  match a with
  | ActiveArea => active_slaves g
  | CompletedArea => completed_slaves g
  end.
Definition set_slaves (a : area) (l : list card) (g : gui) : gui :=
  match a with
  | ActiveArea =>
      {| board := board g; widgets := widgets g;
         active_slaves := l; completed_slaves := completed_slaves g |}
  | CompletedArea =>
      {| board := board g; widgets := widgets g;
         active_slaves := active_slaves g; completed_slaves := l |}
  end.

Definition with_destroyed (w : card_widgets) : card_widgets :=
  {| parent_frame := parent_frame w; destroyed := true; shadow_bg := shadow_bg w;
     title_text := title_text w; drag_bound := drag_bound w;
     complete_btn := complete_btn w |}.
Definition with_shadow_bg (bg : color) (w : card_widgets) : card_widgets :=
  {| parent_frame := parent_frame w; destroyed := destroyed w; shadow_bg := bg;
     title_text := title_text w; drag_bound := drag_bound w;
     complete_btn := complete_btn w |}.
Definition with_title_text (t : value) (w : card_widgets) : card_widgets :=
  {| parent_frame := parent_frame w; destroyed := destroyed w; shadow_bg := shadow_bg w;
     title_text := t; drag_bound := drag_bound w; complete_btn := complete_btn w |}.

(** *** Tk *)

(** [card.shadow.pack(...)] *)
Definition tk_pack (c : card) (g : gui) : tkres :=
  let w := widgets g !!! c in
  if destroyed w then Fail TclError g
  else if decide (c ∈ slaves (parent_frame w) g) then Done g
  else Done (set_slaves (parent_frame w) (slaves (parent_frame w) g ++ [c]) g).

(** [card.shadow.pack_forget()]; on a destroyed widget nothing changes, and
    the only caller swallows what may be raised. *)
Definition tk_pack_forget (c : card) (g : gui) : tkres :=
  let w := widgets g !!! c in
  if destroyed w then Fail TclError g
  else Done (set_slaves (parent_frame w) (py_remove c (slaves (parent_frame w) g)) g).

(** [self.shadow.destroy()]; on a destroyed widget it does nothing. *)
Definition tk_destroy (c : card) (g : gui) : gui :=
  let w := widgets g !!! c in
  if destroyed w then g
  else set_widgets (<[c := with_destroyed w]> (widgets g))
         (set_slaves (parent_frame w) (py_remove c (slaves (parent_frame w) g)) g).

(** [configure], [unbind] on the widgets of a card. *)
Definition tk_configure (c : card) (f : card_widgets -> card_widgets) (g : gui) : tkres :=
  let w := widgets g !!! c in
  if destroyed w then Fail TclError g
  else Done (set_widgets (<[c := f w]> (widgets g)) g).

(** *** [TaskCard] *)

Definition new_widgets (parent : area) (t : value) : card_widgets :=
  {| parent_frame := parent; destroyed := false; shadow_bg := NEON_CYAN;
     title_text := t; drag_bound := true; complete_btn := run_complete |}.

(** [TaskCard.__init__]: the object, its widgets, its frame packed last. *)
Definition TaskCard (parent : area) (t : value) (g : gui) : card * gui :=
  let (c, b) := TaskCard t (board g) in
  (c, set_slaves parent (slaves parent g ++ [c])
        (set_widgets (widgets g ++ [new_widgets parent t]) (set_board b g))).

Definition mark_as_completed (c : card) (g : gui) : tkres :=
  tk_configure c
    (fun w => {| parent_frame := parent_frame w; destroyed := destroyed w;
                 shadow_bg := NEON_LIME; title_text := title_text w;
                 drag_bound := false; complete_btn := run_restore |}) g.

(** *** [TaskBoardApp] *)

(** The first loop swallows what [pack_forget] raises. *)
Definition forget_all (cards : list card) (g : gui) : gui :=
  foldl (fun g c => state_of (tk_pack_forget c g)) g cards.

Fixpoint pack_all (cards : list card) (g : gui) : tkres :=
  match cards with
  | [] => Done g
  | c :: rest => and_then (tk_pack c g) (pack_all rest)
  end.

Definition repack_task_cards (g : gui) : tkres :=
  pack_all (tasks (board g)) (forget_all (tasks (board g)) g).

Definition save_state (io : write_outcome) (g : gui) : gui :=
  set_board (save_state io (board g)) g.

Definition add_task (t : value) (save : bool) (io : write_outcome) (g : gui) : tkres :=
  let (c, g1) := TaskCard ActiveArea t g in
  let g2 := set_board (set_tasks (tasks (board g1) ++ [c]) (board g1)) g1 in
  and_then (repack_task_cards g2) (fun g3 =>
  Done (if save then save_state io g3 else g3)).

Definition add_completed_task (t : value) (save : bool) (io : write_outcome) (g : gui)
  : tkres :=
  let (c, g1) := TaskCard CompletedArea t g in
  and_then (mark_as_completed c g1) (fun g2 =>
  let g3 := set_board (set_completed (completed (board g2) ++ [c]) (board g2)) g2 in
  Done (if save then save_state io g3 else g3)).

Definition add_task_dialog (answer : option str) (io : write_outcome) (g : gui) : tkres :=
  match answer with
  | Some t => if truthy answer then add_task (VStr (strip t)) true io g else Done g
  | None => Done g
  end.

Definition on_drag_start (self : card) (g : gui) : tkres :=
  tk_configure self (with_shadow_bg NEON_MAGENTA)
    (set_board (on_drag_start self (board g)) g).

(** [winfo_y] of a destroyed card raises before anything is moved. *)
Definition on_drag_motion (self : card) (winfo_y winfo_height : card -> Z)
    (pointery rooty : Z) (g : gui) : tkres :=
  match drag_index (heap (board g) !!! self) with
  | None => Done g
  | Some d =>
      let cards := tasks (board g) in
      if existsb (fun c => destroyed (widgets g !!! c)) cards then Fail TclError g
      else
        let t := target_index winfo_y winfo_height (pointery - rooty) cards in
        if (t =? d)%Z then Done g
        else match py_pop d cards with
             | None => Fail (Py IndexError) g
             | Some (c, cards') =>
                 repack_task_cards
                   (set_board (set_drag_index self (Some t)
                                 (set_tasks (py_insert t c cards') (board g))) g)
             end
  end.

Definition on_drag_release (self : card) (io : write_outcome) (g : gui) : tkres :=
  and_then (tk_configure self (with_shadow_bg NEON_CYAN) g) (fun g1 =>
  Done (save_state io (set_board (set_drag_index self None (board g1)) g1))).

Definition complete (self : card) (save : bool) (io : write_outcome) (g : gui) : tkres :=
  and_then (add_completed_task (text_of (board g) self) false io g) (fun g1 =>
  let g2 := if decide (self ∈ tasks (board g1))
            then set_board (set_tasks (py_remove self (tasks (board g1))) (board g1)) g1
            else g1 in
  and_then (repack_task_cards (tk_destroy self g2)) (fun g3 =>
  Done (if save then save_state io g3 else g3))).

Definition delete_card (self : card) (io : write_outcome) (g : gui) : tkres :=
  and_then
    (if decide (self ∈ tasks (board g))
     then repack_task_cards
            (set_board (set_tasks (py_remove self (tasks (board g))) (board g)) g)
     else if decide (self ∈ completed (board g))
          then Done (set_board (set_completed (py_remove self (completed (board g)))
                                  (board g)) g)
          else Done g)
    (fun g1 => Done (save_state io (tk_destroy self g1))).

Definition edit (self : card) (answer : option str) (io : write_outcome) (g : gui) : tkres :=
  match answer with
  | Some new_text =>
      if truthy answer
      then
        let g1 := set_board (set_text self (VStr (strip new_text)) (board g)) g in
        and_then (tk_configure self (with_title_text (text_of (board g1) self)) g1)
          (fun g2 => Done (save_state io g2))
      else Done g
  | None => Done g
  end.

Definition restore (self : card) (save : bool) (io : write_outcome) (g : gui) : tkres :=
  let g1 := if decide (self ∈ completed (board g))
            then set_board (set_completed (py_remove self (completed (board g)))
                              (board g)) g
            else g in
  let g2 := tk_destroy self g1 in
  and_then (add_task (text_of (board g2) self) false io g2) (fun g3 =>
  Done (if save then save_state io g3 else g3)).

Fixpoint add_tasks (ts : list value) (g : gui) : tkres :=
  match ts with
  | [] => Done g
  | t :: rest => and_then (add_task t false Written g) (add_tasks rest)
  end.

Fixpoint add_completed_tasks (ts : list value) (g : gui) : tkres :=
  match ts with
  | [] => Done g
  | t :: rest => and_then (add_completed_task t false Written g) (add_completed_tasks rest)
  end.

(** [except Exception] catches what Tk raises as well. *)
Definition load_state (g : gui) : bool * gui :=
  match data_file (board g) with
  | None => (false, g)
  | Some Unreadable => (false, g)
  | Some (Json (VDict d)) =>
      match py_iter (dict_get d (py "tasks") (VList [])) with
      | None => (false, g)
      | Some ts =>
          match add_tasks ts g with
          | Fail _ g' => (false, g')
          | Done g1 =>
              match py_iter (dict_get d (py "completed") (VList [])) with
              | None => (false, g1)
              | Some cs =>
                  match add_completed_tasks cs g1 with
                  | Fail _ g' => (false, g')
                  | Done g2 => (true, g2)
                  end
              end
          end
      end
  | Some (Json _) => (false, g)
  end.

(** The window before any card is made. *)
Definition empty (disk : option file_content) : gui :=
  {| board := fresh disk; widgets := []; active_slaves := []; completed_slaves := [] |}.

Definition init (disk : option file_content) (io : write_outcome) : tkres :=
  let (found, g) := load_state (empty disk) in
  if found then Done g
  else and_then (add_tasks (map VStr default_tasks) g) (fun g1 =>
       Done (save_state io g1)).

(** *** What the user does *)

Inductive input :=
| ClickAdd (answer : option str)
| ClickEdit (c : card) (answer : option str)
| ClickComplete (c : card)          (* the [-] / [+] button of the card *)
| ClickDelete (c : card)
| Press (c : card)
| Drag (c : card) (winfo_y winfo_height : card -> Z) (pointery rooty : Z)
| Release (c : card).

Definition handle (i : input) (io : write_outcome) (g : gui) : tkres :=
  match i with
  | ClickAdd answer => add_task_dialog answer io g
  | ClickEdit c answer => edit c answer io g
  | ClickComplete c =>
      match complete_btn (widgets g !!! c) with
      | run_complete => complete c true io g
      | run_restore => restore c true io g
      end
  | ClickDelete c => delete_card c io g
  | Press c => on_drag_start c g
  | Drag c wy wh py ry => on_drag_motion c wy wh py ry g
  | Release c => on_drag_release c io g
  end.

(** Tk delivers an event to a widget that exists and has the binding. *)
Definition delivered (i : input) (g : gui) : Prop :=
  match i with
  | ClickAdd _ => True
  | ClickEdit c _ | ClickComplete c | ClickDelete c =>
      c < length (widgets g) /\ destroyed (widgets g !!! c) = false
  | Press c | Drag c _ _ _ _ | Release c =>
      c < length (widgets g) /\ destroyed (widgets g !!! c) = false
      /\ drag_bound (widgets g !!! c) = true
  end.

(** The event loop goes on after a handler has raised, with the state the
    handler has left. *)
Inductive run : gui -> list (input * write_outcome) -> gui -> Prop :=
| run_nil g : run g [] g
| run_cons g i io evs g'' :
    delivered i g -> run (state_of (handle i io g)) evs g'' ->
    run g ((i, io) :: evs) g''.

Definition reachable (g : gui) : Prop :=
  exists disk io g0 evs, init disk io = Done g0 /\ run g0 evs g.

(** The event of the board that an input stands for. *)
Definition event_of (i : input) (g : gui) : event :=
  match i with
  | ClickAdd answer => AddTaskDialog answer
  | ClickEdit c answer => Edit c answer
  | ClickComplete c =>
      match complete_btn (widgets g !!! c) with
      | run_complete => Complete c
      | run_restore => Restore c
      end
  | ClickDelete c => Delete c
  | Press c => DragStart c
  | Drag c wy wh py ry => DragMotion c wy wh py ry
  | Release c => DragRelease c
  end.

(** How the widgets of an active and of a completed card look. *)
Definition on_active (o : card_obj) (w : card_widgets) : Prop :=
  parent_frame w = ActiveArea /\ destroyed w = false /\
  drag_bound w = true /\ complete_btn w = run_complete /\
  title_text w = text o /\
  shadow_bg w = match drag_index o with
                | Some _ => NEON_MAGENTA
                | None => NEON_CYAN
                end.

Definition on_completed (o : card_obj) (w : card_widgets) : Prop :=
  parent_frame w = CompletedArea /\ destroyed w = false /\
  drag_bound w = false /\ complete_btn w = run_restore /\
  title_text w = text o /\ shadow_bg w = NEON_LIME.

(** The screen shows the board. *)
Definition shown (g : gui) : Prop :=
  length (widgets g) = length (heap (board g)) /\
  wf (board g) /\
  active_slaves g = tasks (board g) /\
  completed_slaves g = completed (board g) /\
  (forall c, c ∈ tasks (board g) ->
     on_active (heap (board g) !!! c) (widgets g !!! c)) /\
  (forall c, c ∈ completed (board g) ->
     on_completed (heap (board g) !!! c) (widgets g !!! c)) /\
  (forall c, c < length (widgets g) ->
     c ∉ tasks (board g) -> c ∉ completed (board g) ->
     destroyed (widgets g !!! c) = true).

(** The cards are alive and belong to the active area. *)
Definition packable (g : gui) (cs : list card) : Prop :=
  forall c, c ∈ cs ->
    destroyed (widgets g !!! c) = false /\
    parent_frame (widgets g !!! c) = ActiveArea.

End Gui.

(** Deciding a closed statement by evaluation. *)
Ltac decide_closed := refine (bool_decide_unpack _ _); vm_compute; exact I.

(** ** Python primitives: lemmas *)

Section strings.

Lemma lstrip_blank (s : str) : blank s = true -> lstrip s = [].
Proof.
  induction s as [|c s IH]; simpl; [done|].
  intros [Hc Hs]%andb_prop. rewrite Hc. auto.
Qed.

Lemma lstrip_nil_blank (s : str) : lstrip s = [] -> blank s = true.
Proof.
  induction s as [|c s IH]; simpl; [done|].
  destruct (isspace c); [auto | discriminate].
Qed.

Lemma blank_rev (s : str) : blank (rev s) = blank s.
Proof.
  unfold blank. apply eq_true_iff_eq.
  rewrite !forallb_forall. split; intros H x Hx; apply H.
  - by apply in_rev in Hx.
  - by apply in_rev.
Qed.

Lemma blank_lstrip (s : str) : blank (lstrip s) = blank s.
Proof.
  induction s as [|c s IH]; simpl; [done|].
  destruct (isspace c) eqn:Hc; simpl; [done | by rewrite Hc].
Qed.

Lemma blank_strip (s : str) : blank (strip s) = blank s.
Proof.
  unfold strip, rstrip. by rewrite blank_rev, blank_lstrip, blank_rev, blank_lstrip.
Qed.

(** Nothing is left by [strip] exactly when the string is blank. *)
Lemma strip_nil_iff (s : str) : strip s = [] <-> blank s = true.
Proof.
  split.
  - intros H. rewrite <- blank_strip, H. done.
  - intros H. unfold strip, rstrip.
    rewrite (lstrip_blank s H). done.
Qed.

End strings.

Section lists.
Context `{EqDecision A}.
Implicit Types (x y : A) (l k : list A).

Lemma py_remove_notin x l : x ∉ l -> py_remove x l = l.
Proof.
  induction l as [|y l IH]; simpl; [done|].
  intros [Hne Hl]%not_elem_of_cons. rewrite decide_False by done.
  by rewrite IH.
Qed.

Lemma py_remove_app_last x l : x ∉ l -> py_remove x (l ++ [x]) = l.
Proof.
  induction l as [|y l IH]; simpl.
  - by rewrite decide_True.
  - intros [Hne Hl]%not_elem_of_cons. rewrite decide_False by done.
    by rewrite IH.
Qed.

Lemma elem_of_py_remove x y l : y ∈ py_remove x l -> y ∈ l.
Proof.
  induction l as [|z l IH]; simpl; [done|].
  destruct (decide (z = x)); rewrite ?elem_of_cons; intuition.
Qed.

Lemma elem_of_py_remove_ne x y l : y ≠ x -> y ∈ l -> y ∈ py_remove x l.
Proof.
  intros Hne. induction l as [|z l IH]; simpl; [done|].
  destruct (decide (z = x)) as [->|]; rewrite ?elem_of_cons; intuition.
Qed.

Lemma NoDup_py_remove x l : NoDup l -> NoDup (py_remove x l).
Proof.
  induction 1 as [|z l Hz Hl IH]; simpl; [constructor|].
  destruct (decide (z = x)); [done|].
  constructor; [|done]. intros H%elem_of_py_remove. done.
Qed.

(** On a list without repetition [remove] leaves no occurrence. *)
Lemma py_remove_gone x l : NoDup l -> x ∉ py_remove x l.
Proof.
  induction 1 as [|z l Hz Hl IH]; simpl; [apply not_elem_of_nil|].
  destruct (decide (z = x)) as [->|Hne]; [done|].
  apply not_elem_of_cons. split; [congruence | done].
Qed.

Lemma py_remove_filter x l : NoDup l -> py_remove x l = filter (fun y => y ≠ x) l.
Proof.
  induction 1 as [|z l Hz Hl IH]; simpl; [done|].
  destruct (decide (z = x)) as [->|Hne].
  - rewrite filter_cons_False by (intros ?; done).
    symmetry.
    clear IH Hl. induction l as [|w l IHl]; [done|].
    apply not_elem_of_cons in Hz as [Hw Hz].
    rewrite filter_cons_True by congruence. f_equal. auto.
  - rewrite filter_cons_True by done. by rewrite IH.
Qed.

End lists.

(** The primitives on small inputs. *)
Example strip_example : strip (py "  buy  milk 	") = py "buy  milk".
Proof. reflexivity. Qed.

Example isspace_example :
  map isspace [9; 13; 14; 28; 32; 65; 133; 160; 8203; 12288]%N
  = [true; true; false; true; true; false; true; true; false; true].
Proof. reflexivity. Qed.

Example py_pop_example :
  py_pop 1 [10; 20; 30] = Some (20, [10; 30]) /\
  py_pop (-1) [10; 20; 30] = Some (30, [10; 20]) /\
  py_pop 3 [10; 20; 30] = None.
Proof. done. Qed.

Example py_insert_example :
  py_insert 0 5 [10; 20] = [5; 10; 20] /\
  py_insert 7 5 [10; 20] = [10; 20; 5] /\
  py_insert (-1) 5 [10; 20] = [10; 5; 20].
Proof. done. Qed.

Example py_iter_example :
  py_iter (VStr (py "ab")) = Some [VStr (py "a"); VStr (py "b")] /\
  py_iter (VInt 5) = None.
Proof. done. Qed.

(** ** Creating cards *)

Section loading.
Implicit Types (s : app) (ts : list value).

Lemma add_tasks_cons t ts s :
  add_tasks (t :: ts) s = add_tasks ts (snd (add_task t false Written s)).
Proof. done. Qed.

Lemma add_completed_tasks_cons t ts s :
  add_completed_tasks (t :: ts) s
  = add_completed_tasks ts (snd (add_completed_task t false Written s)).
Proof. done. Qed.

(** The loop over the saved texts appends one new card per text, in order. *)
Lemma add_tasks_spec ts s :
  add_tasks ts s =
  {| tasks := tasks s ++ seq (length (heap s)) (length ts);
     completed := completed s;
     heap := heap s ++ map new_obj ts;
     data_file := data_file s |}.
Proof.
  revert s. induction ts as [|t ts IH]; intros s.
  - destruct s; simpl. by rewrite !app_nil_r.
  - rewrite add_tasks_cons, IH. simpl.
    rewrite length_app, Nat.add_1_r. simpl.
    by rewrite <- !app_assoc.
Qed.

Lemma add_completed_tasks_spec ts s :
  add_completed_tasks ts s =
  {| tasks := tasks s;
     completed := completed s ++ seq (length (heap s)) (length ts);
     heap := heap s ++ map new_obj ts;
     data_file := data_file s |}.
Proof.
  revert s. induction ts as [|t ts IH]; intros s.
  - destruct s; simpl. by rewrite !app_nil_r.
  - rewrite add_completed_tasks_cons, IH. simpl.
    rewrite length_app, Nat.add_1_r. simpl.
    by rewrite <- !app_assoc.
Qed.

Lemma length_texts s (l : list card) : length (texts s l) = length l.
Proof. apply length_map. Qed.

(** Reading back the texts of cards created in a row. *)
Lemma texts_new (h h' : list card_obj) ts (f : option file_content) l1 l2 :
  texts {| tasks := l1; completed := l2;
           heap := h ++ map new_obj ts ++ h'; data_file := f |}
        (seq (length h) (length ts)) = ts.
Proof.
  unfold texts, text_of. simpl.
  revert h. induction ts as [|t ts IH]; intros h; [done|].
  simpl. f_equal.
  - by rewrite list_lookup_total_middle.
  - specialize (IH (h ++ [new_obj t])).
    rewrite length_app, Nat.add_1_r in IH. simpl in IH.
    rewrite <- app_assoc in IH. done.
Qed.

End loading.

(** ** C1: saving and loading *)

(** C1.  A board saved (the write going through) and loaded by a process that
    starts with no cards comes back with the same texts in the same order in
    both lists: [load_state] reports success, [__init__] seeds nothing, and
    the texts of the new active and completed cards are those of the saved
    ones.  The new cards are new objects, numbered from 0 in the new process
    whatever the saved cards were. *)
Theorem save_load_roundtrip (s : app) (io : write_outcome) :
  let disk := data_file (save_state Written s) in
  let s' := snd (load_state (fresh disk)) in
  fst (load_state (fresh disk)) = true /\
  init disk io = s' /\
  texts s' (tasks s') = texts s (tasks s) /\
  texts s' (completed s') = texts s (completed s) /\
  tasks s' = seq 0 (length (tasks s)) /\
  completed s' = seq (length (tasks s)) (length (completed s)).
Proof.
  simpl. unfold init, load_state. simpl.
  rewrite add_tasks_spec, add_completed_tasks_spec. simpl.
  rewrite !length_map, !length_texts.
  repeat split.
  - pose proof (texts_new [] (map new_obj (texts s (completed s)))
                  (texts s (tasks s))) as H.
    simpl in H. rewrite length_texts in H. apply H.
  - pose proof (texts_new (map new_obj (texts s (tasks s))) []
                  (texts s (completed s))) as H.
    rewrite app_nil_r, length_map, !length_texts in H. apply H.
Qed.

(** ** C2: start-up without a usable file *)

Lemma add_tasks_defaults (s : app) :
  let s' := add_tasks (map VStr default_tasks) s in
  tasks s' = tasks s ++ seq (length (heap s)) 4 /\
  completed s' = completed s /\
  texts s' (seq (length (heap s)) 4) = map VStr default_tasks.
Proof.
  cbv zeta. rewrite add_tasks_spec. cbn [tasks completed]. repeat split.
  pose proof (texts_new (heap s) [] (map VStr default_tasks)
                (data_file s)) as H.
  rewrite app_nil_r in H. apply H.
Qed.


(** A file that decodes to something other than an object, or to an object
    whose ["tasks"] cannot be iterated, also ends in the defaults alone. *)
Lemma init_defaults_no_tasks (v : value) (io : write_outcome) :
  match v with
  | VDict d => py_iter (dict_get d (py "tasks") (VList [])) = None
  | _ => True
  end ->
  let s := init (Some (Json v)) io in
  texts s (tasks s) = map VStr default_tasks /\ completed s = [].
Proof.
  intros Hv. unfold init, load_state. simpl data_file.
  assert (forall s0 : app, s0 = fresh (Some (Json v)) ->
    let s := save_state io (add_tasks (map VStr default_tasks) s0) in
    texts s (tasks s) = map VStr default_tasks /\ completed s = []) as Hdef.
  { intros s0 ->. destruct io; vm_compute; done. }
  destruct v; try (by apply Hdef).
  rewrite Hv. by apply Hdef.
Qed.

(** What is outside C2: a file that decodes, whose ["tasks"] is a list and
    whose ["completed"] cannot be iterated.  [load_state] has added the
    tasks when the exception is caught, and [__init__] appends the defaults
    to them. *)
Example init_after_partial_load :
  let doc := VDict [ (py "tasks", VList [VStr (py "a")]);
                     (py "completed", VInt 5) ] in
  let s := init (Some (Json doc)) Written in
  fst (load_state (fresh (Some (Json doc)))) = false /\
  texts s (tasks s) = VStr (py "a") :: map VStr default_tasks.
Proof. vm_compute. done. Qed.

(** ** C10: a document that lacks a key *)

Lemma dict_get_missing (d : list (str * value)) (key : str) (v : value) :
  dict_has d key = false -> dict_get d key v = v.
Proof.
  induction d as [|[k w] d IH]; simpl; [done|].
  intros [Hk Hd]%orb_false_elim.
  apply bool_decide_eq_false in Hk. simpl in Hk.
  rewrite decide_False by done. auto.
Qed.

(** C10 as stated fails: the object below lacks ["completed"], and loading it
    fails, because the value under the key that is there cannot be
    iterated. *)
Lemma load_missing_key_counterexample :
  let d := [ (py "tasks", VInt 5) ] in
  dict_has d (py "completed") = false /\
  fst (load_state (fresh (Some (Json (VDict d))))) = false.
Proof. vm_compute. done. Qed.

(** C10, amended.  For a document that decodes to an object without
    ["tasks"], without ["completed"] or without both, and in which a key that
    is there holds a value Python can iterate (a JSON array; a string and an
    object are iterated too, by characters and by keys): [load_state] returns
    true, [__init__] seeds no defaults, the cards created carry the elements
    found, and a missing key gives no card. *)
Theorem load_missing_keys (d : list (str * value)) (ts cs : list value)
    (io : write_outcome) :
  dict_has d (py "tasks") = false \/ dict_has d (py "completed") = false ->
  py_iter (dict_get d (py "tasks") (VList [])) = Some ts ->
  py_iter (dict_get d (py "completed") (VList [])) = Some cs ->
  let disk := Some (Json (VDict d)) in
  let s := snd (load_state (fresh disk)) in
  fst (load_state (fresh disk)) = true /\
  init disk io = s /\
  texts s (tasks s) = ts /\
  texts s (completed s) = cs /\
  (dict_has d (py "tasks") = false -> tasks s = []) /\
  (dict_has d (py "completed") = false -> completed s = []).
Proof.
  intros _ Hts Hcs. cbv zeta. unfold init, load_state. cbn [data_file fresh].
  rewrite Hts, Hcs. cbn [fst snd].
  rewrite add_tasks_spec, add_completed_tasks_spec. cbn [tasks completed heap app_nil_l length].
  simpl.
  rewrite length_map.
  repeat split.
  - apply (texts_new [] (map new_obj cs) ts).
  - pose proof (texts_new (map new_obj ts) [] cs) as H.
    rewrite app_nil_r, length_map in H. apply H.
  - intros Hno. rewrite dict_get_missing in Hts by done.
    by injection Hts as <-.
  - intros Hno. rewrite dict_get_missing in Hcs by done.
    by injection Hcs as <-.
Qed.

Lemma load_missing_keys_witness :
  let d := [ (py "tasks", VList [VStr (py "a")]) ] in
  let s := snd (load_state (fresh (Some (Json (VDict d))))) in
  fst (load_state (fresh (Some (Json (VDict d))))) = true /\
  texts s (tasks s) = [VStr (py "a")] /\ completed s = [].
Proof.
  pose proof (load_missing_keys [ (py "tasks", VList [VStr (py "a")]) ]
                [VStr (py "a")] [] Written) as H.
  simpl in H.
  destruct H as (H1 & _ & H3 & _ & _ & H6);
    [right; reflexivity | reflexivity | reflexivity |].
  split; [exact H1|]. split; [exact H3|]. apply H6. reflexivity.
Defined.

(** ** What saving leaves alone *)

Lemma tasks_save_state io s : tasks (save_state io s) = tasks s.
Proof. by destruct io. Qed.
Lemma completed_save_state io s : completed (save_state io s) = completed s.
Proof. by destruct io. Qed.
Lemma heap_save_state io s : heap (save_state io s) = heap s.
Proof. by destruct io. Qed.
Lemma text_of_save_state io s c : text_of (save_state io s) c = text_of s c.
Proof. by destruct io. Qed.
Lemma texts_save_state io s l : texts (save_state io s) l = texts s l.
Proof. by destruct io. Qed.

Lemma tasks_if_save (b : bool) io s : tasks (if b then save_state io s else s) = tasks s.
Proof. destruct b; [apply tasks_save_state | done]. Qed.
Lemma completed_if_save (b : bool) io s :
  completed (if b then save_state io s else s) = completed s.
Proof. destruct b; [apply completed_save_state | done]. Qed.
Lemma heap_if_save (b : bool) io s : heap (if b then save_state io s else s) = heap s.
Proof. destruct b; [apply heap_save_state | done]. Qed.

Create Rewrite HintDb board.
#[global] Hint Rewrite tasks_save_state completed_save_state heap_save_state
  text_of_save_state texts_save_state tasks_if_save completed_if_save
  heap_if_save : board.

(** The text of a card that has just been created. *)
Lemma text_of_new (s : app) (h : list card_obj) (t : value) :
  heap s = h ++ [new_obj t] -> text_of s (length h) = t.
Proof. intros H. unfold text_of. rewrite H. by rewrite list_lookup_total_middle. Qed.

(** Older cards keep their text when the heap grows. *)
Lemma text_of_old (s s' : app) (h : list card_obj) (c : card) :
  heap s' = heap s ++ h -> c < length (heap s) -> text_of s' c = text_of s c.
Proof.
  intros H Hc. unfold text_of. rewrite H. by rewrite lookup_total_app_l.
Qed.

(** ** C4: adding a task *)




(** ** C5: editing a card *)




(** ** C3: the target of a drag *)

Lemma Qlt_bool_iff (x y : Q) : Qlt_bool x y = true <-> (x < y)%Q.
Proof.
  unfold Qlt_bool. rewrite negb_true_iff, <- not_true_iff_false, Qle_bool_iff.
  split; [apply Qnot_le_lt | apply Qlt_not_le].
Qed.

Section drag_target.
Variables winfo_y winfo_height : card -> Z.
Variable pointer_y : Z.

Local Abbreviation mid := (y_center winfo_y winfo_height).
Local Abbreviation over := (above winfo_y winfo_height pointer_y).

(** Where the loop breaks: at the first card the pointer is above. *)
Lemma first_above_Some (cards : list card) (i k : Z) :
  first_above pointer_y i (map mid cards) = Some k ->
  exists (n : nat) (c : card),
    k = (i + Z.of_nat n)%Z /\ cards !! n = Some c /\ over c /\
    forall (m : nat) (c' : card), m < n -> cards !! m = Some c' -> ~ over c'.
Proof.
  revert i. induction cards as [|c cards IH]; intros i; simpl; [done|].
  destruct (Qlt_bool (inject_Z pointer_y) (mid c)) eqn:Hc.
  - intros [= <-]. exists 0, c. repeat split.
    + lia.
    + by apply Qlt_bool_iff.
    + intros m c' Hm. lia.
  - intros (n & c1 & -> & Hn & Hover & Hmin)%IH.
    exists (S n), c1. repeat split; [lia | done | done |].
    intros [|m] c' Hm; simpl.
    + intros [= <-]. intros Habs%Qlt_bool_iff. congruence.
    + apply Hmin. lia.
Qed.

(** The loop runs to its [else] exactly when the pointer is above no card. *)
Lemma first_above_None (cards : list card) (i : Z) :
  first_above pointer_y i (map mid cards) = None <->
  forall c : card, c ∈ cards -> ~ over c.
Proof.
  revert i. induction cards as [|c cards IH]; intros i; simpl.
  - split; [|done]. intros _ c Hc. by apply elem_of_nil in Hc.
  - destruct (Qlt_bool (inject_Z pointer_y) (mid c)) eqn:Hc.
    + split; [done|]. intros H. exfalso. apply (H c); [left|].
      by apply Qlt_bool_iff.
    + rewrite IH. split.
      * intros H c' [->|Hc']%elem_of_cons; [|auto].
        intros Habs%Qlt_bool_iff. congruence.
      * intros H c' Hc'. apply H. by right.
Qed.

Lemma target_index_spec (cards : list card) :
  cards <> [] ->
  let t := target_index winfo_y winfo_height pointer_y cards in
  (0 <= t < Z.of_nat (length cards))%Z /\
  ((exists c, c ∈ cards /\ over c) ->
     exists c, cards !! Z.to_nat t = Some c /\ over c /\
       forall (m : nat) (c' : card),
         m < Z.to_nat t -> cards !! m = Some c' -> ~ over c') /\
  ((forall c, c ∈ cards -> ~ over c) -> t = (Z.of_nat (length cards) - 1)%Z) /\
  ((forall c, c ∈ cards -> over c) -> t = 0%Z).
Proof.
  intros Hne. cbv zeta. unfold target_index.
  destruct (first_above pointer_y 0 (map mid cards)) as [k|] eqn:Hk.
  - apply first_above_Some in Hk as (n & c & -> & Hn & Hover & Hmin).
    rewrite Z.add_0_l, Nat2Z.id.
    pose proof (lookup_lt_Some _ _ _ Hn) as Hlt.
    repeat split; try lia.
    + intros _. exists c. done.
    + intros Hnone. exfalso. apply (Hnone c); [|done].
      by apply list_elem_of_lookup_2 in Hn.
    + intros Hall. destruct n as [|n]; [done|]. exfalso.
      destruct cards as [|c0 cards]; [done|].
      apply (Hmin 0 c0); [lia | done |]. apply Hall. left.
  - pose proof (proj1 (first_above_None cards 0) Hk) as Hnone.
    destruct cards as [|c0 cards]; [done|]. simpl length.
    repeat split; try lia.
    + intros (c & Hc & Hover). exfalso. by apply (Hnone c).
    + intros Hall. exfalso. apply (Hnone c0); [left|]. apply Hall. left.
Qed.

End drag_target.

Section pop_insert.
Context {A : Type}.
Implicit Types (l : list A) (x : A).

Lemma py_pop_in_range l (i : Z) x :
  (0 <= i)%Z -> l !! Z.to_nat i = Some x ->
  py_pop i l = Some (x, delete (Z.to_nat i) l).
Proof.
  intros Hi Hx. unfold py_pop, norm_index.
  destruct (i <? 0)%Z eqn:Hneg; [apply Z.ltb_lt in Hneg; lia|].
  rewrite Hneg. by rewrite Hx.
Qed.

Lemma py_insert_in_range l (i : Z) x :
  (0 <= i <= Z.of_nat (length l))%Z ->
  py_insert i x l !! Z.to_nat i = Some x /\ py_insert i x l ≡ₚ x :: l.
Proof.
  intros Hi. unfold py_insert, norm_index.
  destruct (i <? 0)%Z eqn:Hneg; [apply Z.ltb_lt in Hneg; lia|].
  rewrite Hneg. split.
  - apply list_lookup_middle. rewrite length_take. lia.
  - rewrite <- Permutation_middle. by rewrite take_drop.
Qed.

End pop_insert.



(** ** The invariant of the two lists *)

Lemma py_remove_sublist `{EqDecision A} (x : A) (l : list A) :
  py_remove x l `sublist_of` l.
Proof.
  induction l as [|y l IH]; simpl; [done|].
  destruct (decide (y = x)); [by apply sublist_cons | by apply sublist_skip].
Qed.

Lemma py_remove_length `{EqDecision A} (x : A) (l : list A) :
  x ∈ l -> S (length (py_remove x l)) = length l.
Proof.
  induction l as [|y l IH]; simpl; [by intros ?%elem_of_nil|].
  destruct (decide (y = x)) as [->|Hne]; [done|].
  intros [?|Hx]%elem_of_cons; [congruence|]. simpl. by rewrite IH.
Qed.

Section invariant.
Implicit Types (s : app) (c : card).

Lemma wf_alt s :
  wf s <-> NoDup (tasks s ++ completed s) /\
           forall c, c ∈ tasks s ++ completed s -> c < length (heap s).
Proof. unfold wf. by rewrite Forall_forall. Qed.

(** Cards may leave the lists or change places, and the heap may grow. *)
Lemma wf_submseteq s s' :
  wf s ->
  tasks s' ++ completed s' ⊆+ tasks s ++ completed s ->
  length (heap s) <= length (heap s') ->
  wf s'.
Proof.
  rewrite !wf_alt. intros [Hnd Hlt] Hsub Hlen. split.
  - apply submseteq_Permutation in Hsub as [k Hk].
    rewrite Hk in Hnd. by apply NoDup_app in Hnd as [? _].
  - intros c Hc. eapply Nat.lt_le_trans; [|exact Hlen].
    apply Hlt. by eapply elem_of_submseteq.
Qed.

Lemma wf_fresh disk : wf (fresh disk).
Proof. split; simpl; constructor. Qed.

Lemma wf_save_state io s : wf s -> wf (save_state io s).
Proof. by destruct io. Qed.

Lemma wf_if_save (b : bool) io s : wf s -> wf (if b then save_state io s else s).
Proof. destruct b; [apply wf_save_state | done]. Qed.

(** A new card is in neither list yet. *)
Lemma wf_new_notin s c : wf s -> c ∈ tasks s ++ completed s -> c ≠ length (heap s).
Proof. rewrite wf_alt. intros [_ Hlt] Hc%Hlt. lia. Qed.

Lemma wf_add_task t save io s : wf s -> wf (snd (add_task t save io s)).
Proof.
  intros Hwf. unfold add_task. cbn [TaskCard snd]. apply wf_if_save.
  pose proof (fun c => wf_new_notin s c Hwf) as Hnew.
  apply wf_alt in Hwf as [Hnd Hlt]. apply wf_alt.
  cbn [tasks completed heap set_tasks set_heap]. split.
  - rewrite <- app_assoc. simpl. rewrite <- Permutation_middle.
    constructor; [|done]. intros Hin. by apply (Hnew _ Hin).
  - intros c. rewrite length_app, Nat.add_1_r.
    rewrite <- app_assoc. simpl. rewrite elem_of_app, elem_of_cons.
    intros [Hc|[->|Hc]]; [|lia|].
    + apply Nat.lt_lt_succ_r, Hlt. apply elem_of_app. by left.
    + apply Nat.lt_lt_succ_r, Hlt. apply elem_of_app. by right.
Qed.

Lemma wf_add_completed_task t save io s :
  wf s -> wf (snd (add_completed_task t save io s)).
Proof.
  intros Hwf. unfold add_completed_task. cbn [TaskCard snd]. apply wf_if_save.
  pose proof (fun c => wf_new_notin s c Hwf) as Hnew.
  apply wf_alt in Hwf as [Hnd Hlt]. apply wf_alt.
  cbn [tasks completed heap set_completed set_heap]. split.
  - rewrite app_assoc. apply NoDup_app. split; [done|]. split.
    + intros c Hc [->|[]%elem_of_nil]%elem_of_cons. by apply (Hnew _ Hc).
    + apply NoDup_singleton.
  - intros c. rewrite length_app, Nat.add_1_r.
    rewrite app_assoc, elem_of_app, elem_of_cons.
    intros [Hc|[->|[]%elem_of_nil]]; [|lia].
    by apply Nat.lt_lt_succ_r, Hlt.
Qed.

Lemma wf_add_tasks ts s : wf s -> wf (add_tasks ts s).
Proof.
  revert s. induction ts as [|t ts IH]; intros s Hwf; [done|].
  rewrite add_tasks_cons. by apply IH, wf_add_task.
Qed.

Lemma wf_add_completed_tasks ts s : wf s -> wf (add_completed_tasks ts s).
Proof.
  revert s. induction ts as [|t ts IH]; intros s Hwf; [done|].
  rewrite add_completed_tasks_cons. by apply IH, wf_add_completed_task.
Qed.

Lemma wf_load_state s : wf s -> wf (snd (load_state s)).
Proof.
  intros Hwf. unfold load_state.
  destruct (data_file s) as [[|[]]|]; try done.
  destruct (py_iter _) as [ts|]; [|done].
  destruct (py_iter _) as [cs|]; cbn [snd].
  - by apply wf_add_completed_tasks, wf_add_tasks.
  - by apply wf_add_tasks.
Qed.

Lemma wf_init disk io : wf (init disk io).
Proof.
  unfold init. pose proof (wf_load_state (fresh disk) (wf_fresh disk)) as H.
  destruct (load_state (fresh disk)) as [[] s]; cbn [snd] in H; [done|].
  by apply wf_save_state, wf_add_tasks.
Qed.

Lemma wf_remove_tasks c s : wf s -> wf (set_tasks (py_remove c (tasks s)) s).
Proof.
  intros Hwf. apply (wf_submseteq s); [done| |done]. simpl.
  apply submseteq_app; [|done]. apply sublist_submseteq, py_remove_sublist.
Qed.

Lemma wf_remove_completed c s : wf s -> wf (set_completed (py_remove c (completed s)) s).
Proof.
  intros Hwf. apply (wf_submseteq s); [done| |done]. simpl.
  apply submseteq_app; [done|]. apply sublist_submseteq, py_remove_sublist.
Qed.

Lemma wf_set_heap h s : length (heap s) <= length h -> wf s -> wf (set_heap h s).
Proof. intros Hlen Hwf. by apply (wf_submseteq s). Qed.

Lemma wf_set_text c t s : wf s -> wf (set_text c t s).
Proof. apply wf_set_heap. by rewrite length_insert. Qed.

Lemma wf_set_drag_index c d s : wf s -> wf (set_drag_index c d s).
Proof. apply wf_set_heap. by rewrite length_insert. Qed.

Lemma wf_complete c save io s : wf s -> wf (complete c save io s).
Proof.
  intros Hwf. unfold complete. apply wf_if_save.
  pose proof (wf_add_completed_task (text_of s c) false io s Hwf) as H1.
  destruct (decide _); [by apply wf_remove_tasks | done].
Qed.

Lemma wf_restore c save io s : wf s -> wf (restore c save io s).
Proof.
  intros Hwf. unfold restore. apply wf_if_save, wf_add_task.
  destruct (decide _); [by apply wf_remove_completed | done].
Qed.

Lemma wf_delete_card c io s : wf s -> wf (delete_card c io s).
Proof.
  intros Hwf. unfold delete_card. apply wf_save_state.
  repeat destruct (decide _);
    [by apply wf_remove_tasks | by apply wf_remove_completed | done].
Qed.

Lemma wf_edit c answer io s : wf s -> wf (edit c answer io s).
Proof.
  intros Hwf. unfold edit. destruct answer as [t|]; [|done].
  destruct (truthy _); [|done]. by apply wf_save_state, wf_set_text.
Qed.

Lemma wf_add_task_dialog answer io s : wf s -> wf (add_task_dialog answer io s).
Proof.
  intros Hwf. unfold add_task_dialog. destruct answer as [t|]; [|done].
  destruct (truthy _); [|done]. by apply wf_add_task.
Qed.

Lemma py_pop_Permutation {A} (i : Z) (l l' : list A) (x : A) :
  py_pop i l = Some (x, l') -> l ≡ₚ x :: l'.
Proof.
  unfold py_pop. destruct (_ <? 0)%Z; [done|].
  destruct (l !! _) as [y|] eqn:Hy; [|done].
  intros [= <- <-]. by apply delete_Permutation.
Qed.

Lemma py_insert_Permutation {A} (i : Z) (l : list A) (x : A) :
  py_insert i x l ≡ₚ x :: l.
Proof.
  unfold py_insert. rewrite <- Permutation_middle. by rewrite take_drop.
Qed.

Lemma wf_on_drag_motion c wy wh py ry s s' :
  wf s -> on_drag_motion c wy wh py ry s = Returns s' -> wf s'.
Proof.
  intros Hwf. unfold on_drag_motion.
  destruct (drag_index _) as [d|]; [|by intros [= <-]].
  destruct (_ =? d)%Z; [by intros [= <-]|].
  destruct (py_pop d (tasks s)) as [[x l']|] eqn:Hpop; [|done].
  intros [= <-]. apply wf_set_drag_index.
  apply (wf_submseteq s); [done| |done]. simpl.
  apply submseteq_app; [|done].
  rewrite py_insert_Permutation. by rewrite <- (py_pop_Permutation _ _ _ _ Hpop).
Qed.

Lemma Returns_inj s s' : Returns s = Returns s' -> s = s'.
Proof. by intros [= ->]. Qed.

Lemma wf_handle ev io s s' : wf s -> handle ev io s = Returns s' -> wf s'.
Proof.
  intros Hwf. destruct ev; cbn [handle]; try (intros <-%Returns_inj).
  - by apply wf_add_task_dialog.
  - by apply wf_edit.
  - by apply wf_complete.
  - by apply wf_restore.
  - by apply wf_delete_card.
  - by apply wf_set_drag_index.
  - by apply wf_on_drag_motion.
  - by apply wf_save_state, wf_set_drag_index.
Qed.

Lemma wf_run s evs s' : wf s -> run s evs s' -> wf s'.
Proof.
  intros Hwf Hrun. induction Hrun as [|s ev io s' evs s'' Hb Hh Hrun IH]; [done|].
  apply IH. by eapply wf_handle.
Qed.

Lemma wf_reachable s : reachable s -> wf s.
Proof. intros (disk & io & evs & Hrun). eapply wf_run; [apply wf_init | done]. Qed.

Lemma run_app s evs s' evs' s'' :
  run s evs s' -> run s' evs' s'' -> run s (evs ++ evs') s''.
Proof.
  induction 1 as [|s ev io s1 evs s2 Hb Hh Hrun IH]; [done|].
  intros H. simpl. econstructor; eauto.
Qed.

End invariant.

(** ** C6: no card in both lists *)

(** C6.  From any board a run of the program can be in, after any further
    sequence of events (adding, completing, restoring and deleting among
    them), no card occurs twice in the two lists taken together: a card is
    in [tasks], in [completed] or in neither, never in both. *)
Theorem lists_disjoint (s : app) (evs : list (event * write_outcome)) (s' : app) :
  reachable s -> run s evs s' ->
  NoDup (tasks s' ++ completed s') /\
  forall c : card, ~ (c ∈ tasks s' /\ c ∈ completed s').
Proof.
  intros Hreach Hrun.
  assert (wf s') as [Hnd _] by (eapply wf_run; [by apply wf_reachable | done]).
  split; [done|].
  apply NoDup_app in Hnd as (_ & Hdisj & _).
  intros c [Ht Hc]. by apply (Hdisj c).
Qed.

Lemma lists_disjoint_witness :
  let s := init None Written in
  let s' := restore 4 true Written (complete 0 true Written s) in
  tasks s' = [1; 2; 3; 5] /\ completed s' = [] /\
  forall c : card, ~ (c ∈ tasks s' /\ c ∈ completed s').
Proof.
  split; [reflexivity|]. split; [reflexivity|].
  apply (lists_disjoint (init None Written)
           [(Complete 0, Written); (Restore 4, Written)]).
  - exists None, Written, []. constructor.
  - econstructor; [vm_compute; lia | reflexivity |].
    econstructor; [vm_compute; lia | reflexivity |].
    constructor.
Defined.

(** ** C7: completing, then restoring *)

(** The fields of the board after [complete] and after [restore]. *)
Lemma complete_fields (self : card) (save : bool) (io : write_outcome) (s : app) :
  tasks (complete self save io s)
  = (if decide (self ∈ tasks s) then py_remove self (tasks s) else tasks s) /\
  completed (complete self save io s) = completed s ++ [length (heap s)] /\
  heap (complete self save io s) = heap s ++ [new_obj (text_of s self)].
Proof.
  unfold complete, add_completed_task. cbn [TaskCard snd].
  autorewrite with board. cbn [tasks set_completed set_heap].
  by destruct (decide (self ∈ tasks s)).
Qed.

Lemma restore_fields (self : card) (save : bool) (io : write_outcome) (s : app) :
  tasks (restore self save io s) = tasks s ++ [length (heap s)] /\
  completed (restore self save io s)
  = (if decide (self ∈ completed s) then py_remove self (completed s)
     else completed s) /\
  heap (restore self save io s) = heap s ++ [new_obj (text_of s self)].
Proof.
  unfold restore, add_task. cbn [TaskCard snd].
  autorewrite with board.
  by destruct (decide (self ∈ completed s)).
Qed.

(** C7.  Completing an active card creates a completed card with its text and
    takes the card off [tasks]; restoring that completed card takes it off
    [completed] again and appends a new card with the same text to the end
    of [tasks].  The active list then has its old length, the new card is
    its last element and is at no earlier index, whatever index the
    completed card had. *)
Theorem complete_then_restore (self : card) (io1 io2 : write_outcome) (s : app) :
  wf s -> self ∈ tasks s ->
  let s1 := complete self true io1 s in
  let done_card := length (heap s) in
  let s2 := restore done_card true io2 s1 in
  let new_card := S (length (heap s)) in
  (tasks s1 = py_remove self (tasks s) /\
   completed s1 = completed s ++ [done_card] /\
   text_of s1 done_card = text_of s self) /\
  (completed s2 = completed s /\
   tasks s2 = py_remove self (tasks s) ++ [new_card] /\
   text_of s2 new_card = text_of s self) /\
  (length (tasks s2) = length (tasks s) /\
   tasks s2 !! (length (tasks s) - 1) = Some new_card /\
   forall i : nat, i < length (tasks s) - 1 -> tasks s2 !! i <> Some new_card).
Proof.
  intros Hwf Hself. cbv zeta.
  set (n := length (heap s)).
  set (t := text_of s self).
  set (s1 := complete self true io1 s).
  assert (n ∉ completed s) as Hn.
  { intros Hin. apply (wf_new_notin s n Hwf); [|done]. apply elem_of_app. by right. }
  destruct (complete_fields self true io1 s) as (Ht1 & Hc1 & Hh1).
  rewrite decide_True in Ht1 by done. fold s1 n t in Ht1, Hc1, Hh1.
  assert (text_of s1 n = t) as Htext1 by (by apply text_of_new).
  destruct (restore_fields n true io2 s1) as (Ht2 & Hc2 & Hh2).
  rewrite decide_True in Hc2 by (rewrite Hc1; apply elem_of_app; right; left).
  rewrite Hc1, py_remove_app_last in Hc2 by done.
  rewrite Htext1 in Hh2.
  assert (length (heap s1) = S n) as Hlen1
    by (rewrite Hh1, length_app, Nat.add_1_r; done).
  rewrite Hlen1, Ht1 in Ht2.
  pose proof (py_remove_length self (tasks s) Hself) as Hlen.
  split; [done|]. split; [|split; [|split]].
  - repeat split; [done..|].
    rewrite <- Hlen1. by apply text_of_new.
  - rewrite Ht2, length_app, Nat.add_1_r. done.
  - rewrite Ht2. apply list_lookup_middle. lia.
  - intros i Hi. rewrite Ht2, lookup_app_l by lia.
    intros Hin%list_elem_of_lookup_2.
    apply elem_of_py_remove in Hin.
    apply wf_alt in Hwf as [_ Hlt].
    assert (S n < length (heap s)) by (apply Hlt, elem_of_app; by left).
    fold n in H. lia.
Qed.

Lemma complete_then_restore_witness :
  let s := init None Written in
  let s2 := restore 4 true Written (complete 0 true Written s) in
  tasks s = [0; 1; 2; 3] /\ tasks s2 = [1; 2; 3; 5] /\ completed s2 = [] /\
  text_of s2 5 = text_of s 0.
Proof.
  destruct (complete_then_restore 0 Written Written (init None Written))
    as (_ & (H1 & H2 & H3) & _).
  - apply wf_init.
  - vm_compute. left.
  - split; [reflexivity|]. split; [exact H2|]. split; [exact H1 | exact H3].
Defined.

(** ** C8: deleting a card *)

(** C8.  [delete] never raises.  A card of [tasks] is removed from [tasks], a
    card of [completed] from [completed], the other list staying as it is;
    for a card in neither list both lists stay as they are.  On a board of
    the program (no card twice, see C6) the card is then in neither list and
    every other card is where it was. *)
Theorem delete_card_spec (self : card) (io : write_outcome) (s : app) :
  let s' := delete_card self io s in
  handle (Delete self) io s = Returns s' /\
  (self ∈ tasks s ->
     tasks s' = py_remove self (tasks s) /\ completed s' = completed s) /\
  (self ∉ tasks s -> self ∈ completed s ->
     tasks s' = tasks s /\ completed s' = py_remove self (completed s)) /\
  (self ∉ tasks s -> self ∉ completed s ->
     tasks s' = tasks s /\ completed s' = completed s /\ heap s' = heap s) /\
  (wf s ->
     (self ∉ tasks s') /\ (self ∉ completed s') /\
     forall c : card, c <> self ->
       (c ∈ tasks s' <-> c ∈ tasks s) /\ (c ∈ completed s' <-> c ∈ completed s)).
Proof.
  cbv zeta. split; [done|]. unfold delete_card.
  autorewrite with board.
  destruct (decide (self ∈ tasks s)) as [Ht|Ht];
    [|destruct (decide (self ∈ completed s)) as [Hc|Hc]];
    cbn [tasks completed heap set_tasks set_completed];
    (split; [done|]); (split; [done|]); (split; [done|]).
  - intros [Hnd _]. apply NoDup_app in Hnd as (Hndt & Hdisj & Hndc).
    split; [by apply py_remove_gone|]. split; [by apply Hdisj|].
    intros c Hc. split; [|done]. split.
    + apply elem_of_py_remove.
    + by apply elem_of_py_remove_ne.
  - intros [Hnd _]. apply NoDup_app in Hnd as (Hndt & Hdisj & Hndc).
    split; [done|]. split; [by apply py_remove_gone|].
    intros c Hne. split; [done|]. split.
    + apply elem_of_py_remove.
    + by apply elem_of_py_remove_ne.
  - intros _. done.
Qed.

Lemma delete_card_spec_witness :
  let s := complete 0 true Written (init None Written) in
  tasks s = [1; 2; 3] /\ completed s = [4] /\
  tasks (delete_card 2 Written s) = [1; 3] /\
  completed (delete_card 4 Written s) = [] /\
  tasks (delete_card 0 Written s) = [1; 2; 3] /\
  completed (delete_card 0 Written s) = [4] /\
  2 ∉ tasks (delete_card 2 Written s).
Proof.
  pose (s := complete 0 true Written (init None Written)).
  destruct (delete_card_spec 2 Written s) as (_ & H2 & _ & _ & Hwf2).
  destruct (delete_card_spec 4 Written s) as (_ & _ & H4 & _ & _).
  destruct (delete_card_spec 0 Written s) as (_ & _ & _ & H0 & _).
  assert (2 ∈ tasks s) as I2 by decide_closed.
  assert (4 ∉ tasks s) as N4 by decide_closed.
  assert (4 ∈ completed s) as I4 by decide_closed.
  assert (0 ∉ tasks s) as N0 by decide_closed.
  assert (0 ∉ completed s) as M0 by decide_closed.
  assert (wf s) as Hwf by apply wf_complete, wf_init.
  split; [reflexivity|]. split; [reflexivity|].
  split; [exact (proj1 (H2 I2))|].
  split; [exact (proj2 (H4 N4 I4))|].
  split; [exact (proj1 (H0 N0 M0))|].
  split; [exact (proj1 (proj2 (H0 N0 M0)))|].
  exact (proj1 (Hwf2 Hwf)).
Defined.

(** ** C9: the texts of the cards *)


(** The dialogs do the same with a whitespace-only answer, from the
    defaults. *)
Example blank_text_after_add :
  let s := add_task_dialog (Some (py "  ")) Written (init None Written) in
  reachable s /\ tasks s = [0; 1; 2; 3; 4] /\ text_ok (text_of s 4) = false.
Proof.
  split; [|by vm_compute].
  exists None, Written, [(AddTaskDialog (Some (py "  ")), Written)].
  econstructor; [done | reflexivity | constructor].
Qed.

Section texts.
Implicit Types (s : app) (c : card).

Lemma texts_ok_save_state io s : texts_ok s -> texts_ok (save_state io s).
Proof. by destruct io. Qed.

Lemma texts_ok_if_save (b : bool) io s :
  texts_ok s -> texts_ok (if b then save_state io s else s).
Proof. destruct b; [apply texts_ok_save_state | done]. Qed.

Lemma texts_ok_lookup s c :
  texts_ok s -> c < length (heap s) -> text_ok (text_of s c) = true.
Proof.
  intros H Hc. unfold text_of.
  by apply (Forall_lookup_total_1 (fun o => text_ok (text o) = true)).
Qed.

Lemma texts_ok_grow s s' t :
  texts_ok s -> text_ok t = true -> heap s' = heap s ++ [new_obj t] -> texts_ok s'.
Proof.
  unfold texts_ok. intros H Ht ->. apply Forall_app. split; [done|].
  by apply Forall_singleton.
Qed.

Lemma texts_ok_add_task t save io s :
  texts_ok s -> text_ok t = true -> texts_ok (snd (add_task t save io s)).
Proof.
  intros H Ht. unfold add_task. cbn [TaskCard snd]. apply texts_ok_if_save.
  by apply (texts_ok_grow s _ t).
Qed.

Lemma texts_ok_set_drag_index c d s :
  texts_ok s -> c < length (heap s) -> texts_ok (set_drag_index c d s).
Proof.
  intros H Hc. unfold texts_ok, set_drag_index. cbn [heap set_heap].
  apply Forall_insert; [done|]. by apply texts_ok_lookup.
Qed.

(** What is left of a string that is not blank is not blank. *)
Lemma text_ok_strip (t : str) : blank t = false -> text_ok (VStr (strip t)) = true.
Proof. intros H. simpl. by rewrite blank_strip, H. Qed.

(** One turn of the loop keeps the texts fine when the answer is. *)
Lemma texts_ok_handle ev io s s' :
  texts_ok s -> bound ev s -> answer_ok ev ->
  handle ev io s = Returns s' -> texts_ok s'.
Proof.
  intros Hok Hb Ha.
  destruct ev as [answer|c answer|c|c|c|c|c wy wh py ry|c];
    cbn [handle]; unfold bound in Hb; cbn [target] in Hb;
    try (intros <-%Returns_inj).
  - unfold add_task_dialog. destruct answer as [[|a t]|]; cbn [truthy]; try done.
    apply texts_ok_add_task; [done|]. apply text_ok_strip.
    by destruct Ha.
  - unfold edit. destruct answer as [[|a t]|]; cbn [truthy]; try done.
    apply texts_ok_save_state. unfold texts_ok, set_text. cbn [heap set_heap].
    apply Forall_insert; [done|]. cbn [text]. apply text_ok_strip.
    by destruct Ha.
  - destruct (complete_fields c true io s) as (_ & _ & Hh).
    eapply texts_ok_grow; [done| |done]. by apply texts_ok_lookup.
  - destruct (restore_fields c true io s) as (_ & _ & Hh).
    eapply texts_ok_grow; [done| |done]. by apply texts_ok_lookup.
  - unfold delete_card. apply texts_ok_save_state.
    by repeat destruct (decide _).
  - by apply texts_ok_set_drag_index.
  - unfold on_drag_motion.
    destruct (drag_index _) as [d|]; [|by intros <-%Returns_inj].
    destruct (_ =? d)%Z; [by intros <-%Returns_inj|].
    destruct (py_pop d (tasks s)) as [[x l']|]; [|done].
    intros <-%Returns_inj. by apply texts_ok_set_drag_index.
  - by apply texts_ok_save_state, texts_ok_set_drag_index.
Qed.

Lemma texts_ok_run s evs s' :
  texts_ok s -> Forall (fun e => answer_ok (fst e)) evs ->
  run s evs s' -> texts_ok s'.
Proof.
  intros Hok Hans Hrun. induction Hrun as [|s ev io s' evs s'' Hb Hh Hrun IH]; [done|].
  apply Forall_cons in Hans as [Ha Hans].
  apply IH; [|done]. by eapply texts_ok_handle.
Qed.

End texts.

Section listed.
Implicit Types (s : app) (c : card).

Lemma all_listed_fresh disk : all_listed (fresh disk).
Proof. intros c Hc. simpl in Hc. lia. Qed.

Lemma all_listed_save_state io s : all_listed s -> all_listed (save_state io s).
Proof. by destruct io. Qed.

Lemma all_listed_add_task t io s :
  all_listed s -> all_listed (snd (add_task t false io s)).
Proof.
  intros H c. unfold add_task. cbn [TaskCard snd tasks completed heap set_tasks set_heap].
  rewrite length_app, Nat.add_1_r, <- app_assoc, !elem_of_app.
  intros Hc. destruct (decide (c = length (heap s))) as [->|Hne].
  - right. left. left.
  - destruct (proj1 (elem_of_app _ _ _) (H c ltac:(lia))); auto.
Qed.

Lemma all_listed_add_completed_task t io s :
  all_listed s -> all_listed (snd (add_completed_task t false io s)).
Proof.
  intros H c. unfold add_completed_task.
  cbn [TaskCard snd tasks completed heap set_completed set_heap].
  rewrite length_app, Nat.add_1_r, !elem_of_app.
  intros Hc. destruct (decide (c = length (heap s))) as [->|Hne].
  - right. right. left.
  - destruct (proj1 (elem_of_app _ _ _) (H c ltac:(lia))); auto.
Qed.

Lemma all_listed_add_tasks ts s : all_listed s -> all_listed (add_tasks ts s).
Proof.
  revert s. induction ts as [|t ts IH]; intros s H; [done|].
  rewrite add_tasks_cons. by apply IH, all_listed_add_task.
Qed.

Lemma all_listed_add_completed_tasks ts s :
  all_listed s -> all_listed (add_completed_tasks ts s).
Proof.
  revert s. induction ts as [|t ts IH]; intros s H; [done|].
  rewrite add_completed_tasks_cons. by apply IH, all_listed_add_completed_task.
Qed.

Lemma all_listed_load_state s : all_listed s -> all_listed (snd (load_state s)).
Proof.
  intros H. unfold load_state.
  destruct (data_file s) as [[|[]]|]; try done.
  destruct (py_iter _) as [ts|]; [|done].
  destruct (py_iter _) as [cs|]; cbn [snd].
  - by apply all_listed_add_completed_tasks, all_listed_add_tasks.
  - by apply all_listed_add_tasks.
Qed.

(** When [__init__] is done every card created is in one of the lists. *)
Lemma all_listed_init disk io : all_listed (init disk io).
Proof.
  unfold init.
  pose proof (all_listed_load_state (fresh disk) (all_listed_fresh disk)) as H.
  destruct (load_state (fresh disk)) as [[] s]; cbn [snd] in H; [done|].
  by apply all_listed_save_state, all_listed_add_tasks.
Qed.

End listed.



(** ** The scenario of the specification *)

(** No file: the four defaults are seeded; "Buy milk" is added and is the
    fifth and last active card; the first card is completed, which leaves
    four active cards and one completed card with the text of the first; the
    board is saved and loaded again by a new process, texts and order as
    before. *)
Example scenario :
  let s0 := init None Written in
  let s1 := add_task_dialog (Some (py "Buy milk")) Written s0 in
  let s2 := complete 0 true Written s1 in
  let s3 := init (data_file s2) Written in
  length (tasks s0) = 4 /\
  length (tasks s1) = 5 /\ last (texts s1 (tasks s1)) = Some (VStr (py "Buy milk")) /\
  length (tasks s2) = 4 /\ texts s2 (completed s2) = [text_of s0 0] /\
  texts s3 (tasks s3) = texts s2 (tasks s2) /\
  texts s3 (completed s3) = texts s2 (completed s2).
Proof. vm_compute. done. Qed.

(** * More of the program *)

(** ** A drag from press to release *)

Section drag_session.
Context `{EqDecision A}.
Implicit Types (x : A) (l : list A).

Lemma py_index_lookup l (n : nat) x :
  NoDup l -> l !! n = Some x -> py_index x l = Some (Z.of_nat n).
Proof.
  intros Hnd. revert n. induction Hnd as [|y l Hy Hnd IH]; intros n; [done|].
  destruct n as [|n]; simpl.
  - intros [= ->]. by rewrite decide_True.
  - intros Hn. rewrite decide_False.
    + rewrite (IH n Hn). simpl. f_equal. lia.
    + intros ->. apply Hy. by eapply list_elem_of_lookup_2.
Qed.

Lemma py_index_elem_of l x :
  x ∈ l -> exists n : nat, l !! n = Some x /\ py_index x l = Some (Z.of_nat n).
Proof.
  induction l as [|y l IH]; [by intros ?%elem_of_nil|].
  simpl. destruct (decide (y = x)) as [->|Hne].
  - intros _. by exists 0.
  - intros [?|Hx]%elem_of_cons; [congruence|].
    destruct (IH Hx) as (n & Hn & ->). exists (S n). split; [done|].
    simpl. f_equal. lia.
Qed.

Lemma py_remove_delete l (n : nat) x :
  NoDup l -> l !! n = Some x -> py_remove x l = delete n l.
Proof.
  intros Hnd. revert n. induction Hnd as [|y l Hy Hnd IH]; intros n; [done|].
  destruct n as [|n]; simpl.
  - intros [= ->]. by rewrite decide_True.
  - intros Hn. rewrite decide_False.
    + by rewrite (IH n Hn).
    + intros ->. apply Hy. by eapply list_elem_of_lookup_2.
Qed.

Lemma py_remove_middle l1 l2 x : x ∉ l1 -> py_remove x (l1 ++ x :: l2) = l1 ++ l2.
Proof.
  induction l1 as [|y l1 IH]; simpl.
  - by rewrite decide_True.
  - intros [Hne Hl]%not_elem_of_cons. rewrite decide_False by done.
    by rewrite IH.
Qed.

End drag_session.

Lemma dragging_on_drag_start (self : card) (s : app) :
  wf s -> self ∈ tasks s -> dragging self (on_drag_start self s).
Proof.
  intros Hwf Hself.
  pose proof Hwf as [Hnd Hlt]%wf_alt.
  assert (self < length (heap s)) as Hlen by (apply Hlt, elem_of_app; by left).
  apply NoDup_app in Hnd as (Hnd & _ & _).
  destruct (py_index_elem_of (tasks s) self Hself) as (n & Hn & Hidx).
  unfold dragging, on_drag_start, set_drag_index. cbn [heap tasks set_heap].
  rewrite length_insert. split; [done|]. split; [done|].
  exists n. split; [done|].
  by rewrite list_lookup_total_insert_eq, Hidx.
Qed.

(** One motion of a card that is being dragged. *)
Lemma dragging_on_drag_motion (self : card) (m : motion) (s : app) :
  dragging self s ->
  exists s' : app,
    on_drag_motion self (m_winfo_y m) (m_winfo_height m) (m_pointery m) (m_rooty m) s
    = Returns s' /\
    dragging self s' /\
    py_remove self (tasks s') = py_remove self (tasks s) /\
    tasks s' !! Z.to_nat (target_index (m_winfo_y m) (m_winfo_height m)
                            (m_pointery m - m_rooty m) (tasks s)) = Some self /\
    completed s' = completed s /\
    length (heap s') = length (heap s) /\
    (forall c, text_of s' c = text_of s c).
Proof.
  intros (Hlen & Hnd & n & Hn & Hd).
  assert (tasks s <> []) as Hne by (intros H; by rewrite H in Hn).
  destruct (target_index_spec (m_winfo_y m) (m_winfo_height m)
              (m_pointery m - m_rooty m) (tasks s) Hne) as (Ht & _).
  unfold on_drag_motion. rewrite Hd.
  set (t := target_index _ _ _ _) in *.
  destruct (t =? Z.of_nat n)%Z eqn:Htd.
  - apply Z.eqb_eq in Htd. exists s. split; [done|].
    split; [by repeat split; eauto|]. repeat split; try done.
    by rewrite Htd, Nat2Z.id.
  - pose proof (lookup_lt_Some _ _ _ Hn) as Hnlt.
    rewrite (py_pop_in_range _ _ self) by (rewrite ?Nat2Z.id; (lia || done)).
    rewrite Nat2Z.id.
    eexists. split; [reflexivity|].
    unfold dragging, set_drag_index. cbn [heap tasks completed set_heap set_tasks].
    assert (self ∉ delete n (tasks s)) as Hnotin.
    { rewrite <- (py_remove_delete _ _ _ Hnd Hn). by apply py_remove_gone. }
    assert (length (delete n (tasks s)) = length (tasks s) - 1) as Hlen'
      by (rewrite length_delete by eauto; lia).
    assert (py_insert t self (delete n (tasks s))
            = take (Z.to_nat t) (delete n (tasks s)) ++ self
              :: drop (Z.to_nat t) (delete n (tasks s))) as Hins.
    { unfold py_insert, norm_index.
      destruct (t <? 0)%Z eqn:Hneg; [apply Z.ltb_lt in Hneg; lia|]. by rewrite Hneg. }
    assert (NoDup (py_insert t self (delete n (tasks s)))) as Hnd'.
    { rewrite py_insert_Permutation. rewrite <- delete_Permutation by done. done. }
    assert (py_insert t self (delete n (tasks s)) !! Z.to_nat t = Some self) as Hat.
    { rewrite Hins. apply list_lookup_middle. rewrite length_take. lia. }
    rewrite length_insert.
    split; [|repeat split].
    + split; [done|]. split; [done|]. exists (Z.to_nat t). split; [done|].
      rewrite list_lookup_total_insert_eq by done. cbn [drag_index].
      f_equal. lia.
    + rewrite Hins, py_remove_middle.
      * rewrite take_drop. symmetry. by apply py_remove_delete.
      * intros Hin. apply Hnotin. apply elem_of_take in Hin as (i & Hi & _).
        by eapply list_elem_of_lookup_2.
    + done.
    + intros c. unfold text_of. cbn [heap set_heap].
      rewrite list_lookup_total_insert. by case_decide as Hc; [destruct Hc as [-> _]|].
Qed.

(** A drag of a card of the board: after [on_drag_start], however the
    pointer moves, no [on_drag_motion] raises; after each of them
    [_drag_index] is the place of the card in [tasks], the other active
    cards are in the order they had, and nothing else has changed. *)
Theorem drag_never_raises (self : card) (moves : list motion) (s : app) :
  wf s -> self ∈ tasks s ->
  exists s' : app,
    drag_motions self moves (on_drag_start self s) = Returns s' /\
    drag_index (heap s' !!! self) = py_index self (tasks s') /\
    self ∈ tasks s' /\
    py_remove self (tasks s') = py_remove self (tasks s) /\
    tasks s' ≡ₚ tasks s /\
    completed s' = completed s /\
    (forall c, text_of s' c = text_of s c).
Proof.
  intros Hwf Hself.
  assert (exists s', drag_motions self moves (on_drag_start self s) = Returns s' /\
            dragging self s' /\
            py_remove self (tasks s') = py_remove self (tasks (on_drag_start self s)) /\
            completed s' = completed (on_drag_start self s) /\
            (forall c, text_of s' c = text_of (on_drag_start self s) c)) as H.
  { pose proof (dragging_on_drag_start self s Hwf Hself) as Hdrag.
    generalize dependent (on_drag_start self s). clear.
    induction moves as [|m moves IH]; intros s0 Hdrag.
    - exists s0. done.
    - destruct (dragging_on_drag_motion self m s0 Hdrag)
        as (s1 & Hs1 & Hdrag1 & Hrem & _ & Hc & _ & Htext).
      destruct (IH s1 Hdrag1) as (s' & Hs' & Hdrag' & Hrem' & Hc' & Htext').
      exists s'. simpl. rewrite Hs1. split; [done|]. split; [done|].
      split; [congruence|]. split; [congruence|].
      intros c. by rewrite Htext', Htext. }
  destruct H as (s' & Hs' & (Hlen & Hnd & n & Hn & Hd) & Hrem & Hc & Htext).
  cbn [on_drag_start set_drag_index tasks completed set_heap] in Hrem, Hc.
  assert (self ∈ tasks s') as Hin by (by eapply list_elem_of_lookup_2).
  exists s'. split; [done|]. split; [by rewrite Hd, (py_index_lookup _ n)|].
  split; [done|]. split; [done|]. split; [|split; [done|]].
  - pose proof Hwf as [[Hnds _]%NoDup_app _].
    apply NoDup_Permutation; [done..|]. intros c.
    destruct (decide (c = self)) as [->|Hne]; [done|].
    split; intros H.
    + apply (elem_of_py_remove self). rewrite <- Hrem. by apply elem_of_py_remove_ne.
    + apply (elem_of_py_remove self). rewrite Hrem. by apply elem_of_py_remove_ne.
  - intros c. rewrite Htext. unfold text_of, on_drag_start, set_drag_index.
    cbn [heap set_heap]. rewrite list_lookup_total_insert.
    by case_decide as Hcd; [destruct Hcd as [-> _]|].
Qed.

Lemma drag_never_raises_witness :
  let s := init None Written in
  let up := {| m_winfo_y := fun c => (40 * Z.of_nat c)%Z;
               m_winfo_height := fun _ => 30%Z;
               m_pointery := 110; m_rooty := 100 |} in
  let down := {| m_winfo_y := fun c => (40 * Z.of_nat c)%Z;
                 m_winfo_height := fun _ => 30%Z;
                 m_pointery := 900; m_rooty := 100 |} in
  exists s', drag_motions 1 [up; down; up] (on_drag_start 1 s) = Returns s' /\
             tasks s' = [1; 0; 2; 3] /\
             drag_index (heap s' !!! 1) = Some 0%Z.
Proof.
  cbv zeta.
  destruct (drag_never_raises 1
              [ {| m_winfo_y := fun c => (40 * Z.of_nat c)%Z;
                   m_winfo_height := fun _ => 30%Z;
                   m_pointery := 110; m_rooty := 100 |};
                {| m_winfo_y := fun c => (40 * Z.of_nat c)%Z;
                   m_winfo_height := fun _ => 30%Z;
                   m_pointery := 900; m_rooty := 100 |};
                {| m_winfo_y := fun c => (40 * Z.of_nat c)%Z;
                   m_winfo_height := fun _ => 30%Z;
                   m_pointery := 110; m_rooty := 100 |} ]
              (init None Written)) as (s' & Hs' & Hd & _).
  - apply wf_init.
  - decide_closed.
  - exists s'. split; [exact Hs'|].
    vm_compute in Hs'. injection Hs' as <-. split; reflexivity.
Defined.

(** Dragging the only active card moves nothing, wherever the pointer is. *)
Theorem drag_single_card (self : card) (winfo_y winfo_height : card -> Z)
    (pointery rooty : Z) (s : app) :
  length (tasks s) = 1 ->
  drag_index (heap s !!! self) = Some 0%Z ->
  on_drag_motion self winfo_y winfo_height pointery rooty s = Returns s.
Proof.
  intros Hlen Hd. unfold on_drag_motion. rewrite Hd.
  assert (tasks s <> []) as Hne by (intros H; by rewrite H in Hlen).
  destruct (target_index_spec winfo_y winfo_height (pointery - rooty) (tasks s) Hne)
    as (Ht & _).
  rewrite Hlen in Ht.
  replace (target_index winfo_y winfo_height (pointery - rooty) (tasks s)) with 0%Z by lia.
  done.
Qed.

Lemma drag_single_card_witness :
  let s := on_drag_start 0 (add_tasks [VStr (py "a")] (fresh None)) in
  on_drag_motion 0 (fun _ => 0%Z) (fun _ => 30%Z) 500 0 s = Returns s.
Proof.
  apply (drag_single_card 0 (fun _ => 0%Z) (fun _ => 30%Z) 500 0); reflexivity.
Defined.

(** [on_drag_motion] raises exactly when a drag is on, the target differs
    from [_drag_index], and [_drag_index] is no index of [tasks] (counting
    from either end); the board is then as it was.  That takes a press on a
    card followed by the removal of cards before the motion. *)
Theorem on_drag_motion_raises_iff (self : card) (winfo_y winfo_height : card -> Z)
    (pointery rooty : Z) (s : app) :
  on_drag_motion self winfo_y winfo_height pointery rooty s = Raises IndexError <->
  exists d : Z,
    drag_index (heap s !!! self) = Some d /\
    target_index winfo_y winfo_height (pointery - rooty) (tasks s) <> d /\
    ~ (- Z.of_nat (length (tasks s)) <= d < Z.of_nat (length (tasks s)))%Z.
Proof.
  unfold on_drag_motion.
  destruct (drag_index (heap s !!! self)) as [d|]; [|split; [done | by intros (? & ? & _)]].
  set (t := target_index _ _ _ _).
  destruct (t =? d)%Z eqn:Htd.
  - apply Z.eqb_eq in Htd. split; [done|]. intros (d' & [= <-] & Hne & _). done.
  - apply Z.eqb_neq in Htd. unfold py_pop, norm_index. cbv zeta.
    destruct (d <? 0)%Z eqn:Hneg.
    + apply Z.ltb_lt in Hneg.
      destruct (d + Z.of_nat (length (tasks s)) <? 0)%Z eqn:Hneg2.
      * apply Z.ltb_lt in Hneg2. split; [|done].
        intros _. exists d. split; [done|]. split; [done|]. lia.
      * apply Z.ltb_ge in Hneg2.
        destruct (lookup_lt_is_Some_2 (tasks s)
                    (Z.to_nat (d + Z.of_nat (length (tasks s))))) as [x Hx]; [lia|].
        rewrite Hx. split; [done|]. intros (d' & [= <-] & _ & Hout). lia.
    + rewrite Hneg. apply Z.ltb_ge in Hneg.
      destruct (tasks s !! Z.to_nat d) as [x|] eqn:Hx.
      * apply lookup_lt_Some in Hx. split; [done|].
        intros (d' & [= <-] & _ & Hout). lia.
      * apply lookup_ge_None in Hx. split; [|done].
        intros _. exists d. split; [done|]. split; [done|]. lia.
Qed.

(** ** What the handlers leave alone *)

Lemma text_of_set_drag_index (self c : card) (d : option Z) (s : app) :
  text_of (set_drag_index self d s) c = text_of s c.
Proof.
  unfold text_of, set_drag_index. cbn [heap set_heap].
  rewrite list_lookup_total_insert. by case_decide as H; [destruct H as [-> _]|].
Qed.

Lemma text_of_grow (s s' : app) (h : list card_obj) (c : card) :
  heap s' = heap s ++ h -> c < length (heap s) -> text_of s' c = text_of s c.
Proof. apply text_of_old. Qed.

(** Only [edit] changes the text of a card that exists, and only of the card
    it is called on; no handler makes the heap shorter. *)
Theorem handle_keeps_texts (ev : event) (io : write_outcome) (s s' : app) (c : card) :
  handle ev io s = Returns s' ->
  c < length (heap s) ->
  (forall answer, ev <> Edit c answer) ->
  text_of s' c = text_of s c /\ length (heap s) <= length (heap s').
Proof.
  intros Hh Hc Hev.
  destruct ev as [answer|self answer|self|self|self|self|self wy wh py ry|self];
    cbn [handle] in Hh; try apply Returns_inj in Hh as <-.
  - unfold add_task_dialog. destruct answer as [t|]; [|done].
    destruct (truthy _); [|done].
    unfold add_task. cbn [TaskCard snd]. autorewrite with board.
    cbn [heap set_tasks set_heap]. split; [|rewrite length_app; lia].
    by apply (text_of_grow s _ [new_obj (VStr (strip t))]).
  - assert (self <> c) as Hne by (intros ->; by apply (Hev answer)).
    unfold edit. destruct answer as [t|]; [|done].
    destruct (truthy _); [|done].
    autorewrite with board. unfold text_of, set_text. cbn [heap set_heap].
    rewrite length_insert. split; [|done].
    by rewrite list_lookup_total_insert_ne.
  - destruct (complete_fields self true io s) as (_ & _ & Hheap).
    rewrite Hheap, length_app. split; [|lia]. by eapply text_of_grow.
  - destruct (restore_fields self true io s) as (_ & _ & Hheap).
    rewrite Hheap, length_app. split; [|lia]. by eapply text_of_grow.
  - unfold delete_card. autorewrite with board.
    by repeat destruct (decide _).
  - unfold on_drag_start. rewrite text_of_set_drag_index.
    unfold set_drag_index. cbn [heap set_heap]. by rewrite length_insert.
  - unfold on_drag_motion in Hh.
    destruct (drag_index _) as [d|]; [|by apply Returns_inj in Hh as <-].
    destruct (_ =? d)%Z; [by apply Returns_inj in Hh as <-|].
    destruct (py_pop d (tasks s)) as [[x l']|]; [|done].
    apply Returns_inj in Hh as <-. rewrite text_of_set_drag_index.
    unfold set_drag_index. cbn [heap set_heap set_tasks]. by rewrite length_insert.
  - unfold on_drag_release. autorewrite with board.
    rewrite text_of_set_drag_index.
    unfold set_drag_index. cbn [heap set_heap]. by rewrite length_insert.
Qed.

Lemma handle_keeps_texts_witness :
  let s := init None Written in
  text_of (complete 0 true Written s) 1 = text_of s 1.
Proof.
  apply (handle_keeps_texts (Complete 0) Written (init None Written)
           (complete 0 true Written (init None Written)) 1).
  - reflexivity.
  - vm_compute. lia.
  - intros answer. discriminate.
Defined.

(** The exception can be met: press on the last card, delete the first,
    move. *)
Example stale_drag_index_raises :
  let s := delete_card 0 Written (on_drag_start 3 (init None Written)) in
  on_drag_motion 3 (fun c => (40 * Z.of_nat c)%Z) (fun _ => 30%Z) 110 100 s
  = Raises IndexError.
Proof. reflexivity. Qed.

(** ** Completing and restoring lose nothing *)

Lemma texts_grow (s s' : app) (h : list card_obj) (l : list card) :
  heap s' = heap s ++ h -> Forall (fun c => c < length (heap s)) l ->
  texts s' l = texts s l.
Proof.
  intros Hh Hl. unfold texts. apply map_ext_in. intros c Hc.
  apply (text_of_old s s' h); [done|].
  rewrite Forall_forall in Hl. by apply Hl, list_elem_of_In.
Qed.

Lemma texts_app (s : app) (l k : list card) : texts s (l ++ k) = texts s l ++ texts s k.
Proof. apply map_app. Qed.

Lemma texts_py_remove (s : app) (c : card) (l : list card) :
  c ∈ l -> texts s l ≡ₚ text_of s c :: texts s (py_remove c l).
Proof.
  induction l as [|y l IH]; [by intros ?%elem_of_nil|].
  simpl. destruct (decide (y = c)) as [->|Hne]; [done|].
  intros [?|Hc]%elem_of_cons; [congruence|].
  simpl. rewrite (IH Hc). apply Permutation_swap.
Qed.

(** Completing an active card and restoring a completed one keep the texts
    of the board as a whole: the texts of the two lists together are the
    same after as before, each as often. *)
Theorem complete_restore_keep_texts (self : card) (io : write_outcome) (s : app) :
  wf s ->
  (self ∈ tasks s ->
     let s' := complete self true io s in
     texts s' (tasks s' ++ completed s') ≡ₚ texts s (tasks s ++ completed s)) /\
  (self ∈ completed s ->
     let s' := restore self true io s in
     texts s' (tasks s' ++ completed s') ≡ₚ texts s (tasks s ++ completed s)).
Proof.
  intros Hwf. pose proof Hwf as [_ Hlt].
  apply Forall_app in Hlt as [Hlt_t Hlt_c].
  split; intros Hself; cbv zeta.
  - destruct (complete_fields self true io s) as (Ht & Hc & Hh).
    rewrite decide_True in Ht by done. rewrite Ht, Hc.
    rewrite !texts_app.
    rewrite (texts_grow s _ _ (py_remove self (tasks s)) Hh).
    2:{ rewrite Forall_forall in Hlt_t.
        rewrite Forall_forall. intros c Hin%elem_of_py_remove. by apply Hlt_t. }
    rewrite (texts_grow s _ _ (completed s) Hh) by done.
    simpl. rewrite (text_of_new _ (heap s) (text_of s self)) by done.
    rewrite (texts_py_remove s self (tasks s)) by done.
    rewrite app_assoc. simpl. symmetry. apply Permutation_cons_append.
  - destruct (restore_fields self true io s) as (Ht & Hc & Hh).
    rewrite decide_True in Hc by done. rewrite Ht, Hc.
    rewrite !texts_app.
    rewrite (texts_grow s _ _ (tasks s) Hh) by done.
    rewrite (texts_grow s _ _ (py_remove self (completed s)) Hh).
    2:{ rewrite Forall_forall in Hlt_c.
        rewrite Forall_forall. intros c Hin%elem_of_py_remove. by apply Hlt_c. }
    simpl. rewrite (text_of_new _ (heap s) (text_of s self)) by done.
    rewrite (texts_py_remove s self (completed s)) by done.
    by rewrite <- app_assoc.
Qed.

Lemma complete_restore_keep_texts_witness :
  let s := complete 1 true Written (init None Written) in
  texts (restore 4 true Written s) (tasks (restore 4 true Written s)
                                    ++ completed (restore 4 true Written s))
  ≡ₚ texts s (tasks s ++ completed s).
Proof.
  apply (complete_restore_keep_texts 4 Written
           (complete 1 true Written (init None Written))).
  - apply wf_complete, wf_init.
  - decide_closed.
Defined.

(** Restoring a completed card and completing the card that comes of it:
    the active list is as before and the card is back in [completed], at the
    end, as a new card with the same text. *)
Theorem restore_then_complete (self : card) (io1 io2 : write_outcome) (s : app) :
  wf s -> self ∈ completed s ->
  let s1 := restore self true io1 s in
  let active_card := length (heap s) in
  let s2 := complete active_card true io2 s1 in
  let new_card := S (length (heap s)) in
  tasks s1 = tasks s ++ [active_card] /\
  tasks s2 = tasks s /\
  completed s2 = py_remove self (completed s) ++ [new_card] /\
  text_of s2 new_card = text_of s self.
Proof.
  intros Hwf Hself. cbv zeta.
  set (n := length (heap s)).
  set (s1 := restore self true io1 s).
  assert (n ∉ tasks s) as Hn.
  { intros Hin. apply (wf_new_notin s n Hwf); [|done]. apply elem_of_app. by left. }
  destruct (restore_fields self true io1 s) as (Ht1 & Hc1 & Hh1).
  rewrite decide_True in Hc1 by done. fold s1 n in Ht1, Hc1, Hh1.
  assert (text_of s1 n = text_of s self) as Htext1 by (by apply text_of_new).
  assert (length (heap s1) = S n) as Hlen1
    by (rewrite Hh1, length_app, Nat.add_1_r; done).
  destruct (complete_fields n true io2 s1) as (Ht2 & Hc2 & Hh2).
  rewrite decide_True in Ht2 by (rewrite Ht1; apply elem_of_app; right; left).
  rewrite Ht1, py_remove_app_last in Ht2 by done.
  rewrite Hc1, Hlen1 in Hc2. rewrite Htext1 in Hh2.
  split; [done|]. split; [done|]. split; [done|].
  rewrite <- Hlen1. by apply text_of_new.
Qed.

Lemma restore_then_complete_witness :
  let s := complete 1 true Written (init None Written) in
  let s2 := complete 5 true Written (restore 4 true Written s) in
  tasks s2 = tasks s /\ completed s2 = [6] /\ text_of s2 6 = text_of s 4.
Proof.
  destruct (restore_then_complete 4 Written Written
              (complete 1 true Written (init None Written)))
    as (_ & H2 & H3 & H4).
  - apply wf_complete, wf_init.
  - decide_closed.
  - split; [exact H2|]. split; [exact H3 | exact H4].
Defined.

(** ** What is on disk *)

Lemma save_data_save_state io s : save_data (save_state io s) = save_data s.
Proof. by destruct io. Qed.

Lemma data_file_saved s : data_file (save_state Written s) = Some (Json (save_data s)).
Proof. done. Qed.

Lemma data_file_if_saved (b : bool) io s :
  data_file (if b then save_state io s else s)
  = if b then match io with
              | Written => Some (Json (save_data s))
              | WriteFailed remains => remains
              end
    else data_file s.
Proof. by destruct b, io. Qed.

(** Starting on a file that holds a saved board. *)
Lemma init_of_saved (s0 : app) (io : write_outcome) :
  let r := init (Some (Json (save_data s0))) io in
  texts r (tasks r) = texts s0 (tasks s0) /\
  texts r (completed r) = texts s0 (completed s0).
Proof.
  cbv zeta. unfold init, load_state. simpl.
  rewrite add_tasks_spec, add_completed_tasks_spec. simpl.
  rewrite !length_map, !length_texts. split.
  - pose proof (texts_new [] (map new_obj (texts s0 (completed s0)))
                  (texts s0 (tasks s0))) as H.
    simpl in H. rewrite length_texts in H. apply H.
  - pose proof (texts_new (map new_obj (texts s0 (tasks s0))) []
                  (texts s0 (completed s0))) as H.
    rewrite app_nil_r, length_map, !length_texts in H. apply H.
Qed.

Lemma data_file_load_state (s : app) : data_file (snd (load_state s)) = data_file s.
Proof.
  unfold load_state. destruct (data_file s) as [[|[]]|] eqn:Hf; try done.
  destruct (py_iter _) as [ts|]; [|done].
  destruct (py_iter _) as [cs|]; cbn [snd];
    rewrite ?add_completed_tasks_spec, add_tasks_spec; done.
Qed.

Lemma handle_data_file (ev : event) (io : write_outcome) (s s' : app) :
  handle ev io s = Returns s' ->
  data_file s' =
    (if saves ev
     then match io with
          | Written => Some (Json (save_data s'))
          | WriteFailed remains => remains
          end
     else data_file s).
Proof.
  intros Hh.
  destruct ev as [answer|self answer|self|self|self|self|self wy wh py ry|self];
    cbn [handle saves] in *; try apply Returns_inj in Hh as <-.
  - unfold add_task_dialog. destruct answer as [t|]; [|done].
    destruct (truthy (Some t)); [|done].
    unfold add_task. cbn [TaskCard snd]. destruct io; done.
  - unfold edit. destruct answer as [t|]; [|done].
    destruct (truthy (Some t)); [|done]. destruct io; done.
  - unfold complete. destruct io; done.
  - unfold restore, add_task. cbn [TaskCard snd]. destruct io; done.
  - unfold delete_card. destruct io; done.
  - done.
  - unfold on_drag_motion in Hh.
    destruct (drag_index _) as [d|]; [|by apply Returns_inj in Hh as <-].
    destruct (_ =? d)%Z; [by apply Returns_inj in Hh as <-|].
    destruct (py_pop d (tasks s)) as [[x l']|]; [|done].
    by apply Returns_inj in Hh as <-.
  - unfold on_drag_release. destruct io; done.
Qed.

(** Every handler that changes the board ends with a write of the whole
    board, except [on_drag_motion], which reorders without writing (the
    write comes with the release), and [on_drag_start].  A dialog that is
    cancelled or left empty writes nothing.  A failed write leaves the file
    as the failure left it and the board as the handler made it. *)
Theorem handler_writes (ev : event) (io : write_outcome) (s s' : app) :
  handle ev io s = Returns s' ->
  data_file s' =
    (if saves ev
     then match io with
          | Written => Some (Json (save_data s'))
          | WriteFailed remains => remains
          end
     else data_file s).
Proof. apply handle_data_file. Qed.

Lemma handler_writes_witness :
  let s := init None Written in
  data_file (complete 0 true Written s)
  = Some (Json (save_data (complete 0 true Written s))).
Proof.
  apply (handler_writes (Complete 0) Written (init None Written)). reflexivity.
Defined.

(** After a handler that saves, with the write going through, a new start
    shows the texts of the board in the same order in both lists. *)
Theorem restart_after_handler (ev : event) (s s' : app) (io : write_outcome) :
  handle ev Written s = Returns s' -> saves ev = true ->
  let r := init (data_file s') io in
  texts r (tasks r) = texts s' (tasks s') /\
  texts r (completed r) = texts s' (completed s').
Proof.
  intros Hh Hsaves. cbv zeta.
  rewrite (handle_data_file ev Written s s' Hh), Hsaves. apply init_of_saved.
Qed.

Lemma restart_after_handler_witness :
  let s' := add_task_dialog (Some (py "Buy milk")) Written (init None Written) in
  let r := init (data_file s') Written in
  texts r (tasks r) = texts s' (tasks s') /\
  texts r (completed r) = texts s' (completed s').
Proof.
  apply (restart_after_handler (AddTaskDialog (Some (py "Buy milk")))
           (init None Written)); reflexivity.
Defined.

(** Closing saves: when the write goes through, the next start shows the
    board as it was closed, whatever was dragged or skipped before. *)
Theorem restart_after_close (s : app) (io : write_outcome) :
  let r := init (data_file (on_close Written s)) io in
  texts r (tasks r) = texts s (tasks s) /\
  texts r (completed r) = texts s (completed s).
Proof. cbv zeta. unfold on_close. rewrite data_file_saved. apply init_of_saved. Qed.


(** Starting twice is starting once: whatever is on disk, the board that
    [__init__] makes (the write, if any, going through) is the board the
    next start makes from the file it leaves. *)
Theorem restart_stable (disk : option file_content) (io : write_outcome) :
  let s := init disk Written in
  let r := init (data_file s) io in
  texts r (tasks r) = texts s (tasks s) /\
  texts r (completed r) = texts s (completed s).
Proof.
  cbv zeta.
  destruct (load_state (fresh disk)) as [found s1] eqn:Hload.
  destruct found.
  - assert (init disk Written = s1) as -> by (unfold init; by rewrite Hload).
    assert (data_file s1 = disk) as ->.
    { pose proof (data_file_load_state (fresh disk)) as H. by rewrite Hload in H. }
    unfold init. by rewrite Hload.
  - assert (init disk Written
            = save_state Written (add_tasks (map VStr default_tasks) s1)) as ->
      by (unfold init; by rewrite Hload).
    rewrite data_file_saved, !texts_save_state, tasks_save_state, completed_save_state.
    apply init_of_saved.
Qed.

(** ** What the dialogs store *)

Section trimming.
Implicit Types (s t : str) (c : char).

Lemma lstrip_head s c rest : lstrip s = c :: rest -> isspace c = false.
Proof.
  induction s as [|a s IH]; simpl; [done|].
  destruct (isspace a) eqn:Ha; [done|]. by intros [= <- _].
Qed.

Lemma lstrip_snoc s c : isspace c = false -> exists front, lstrip (s ++ [c]) = front ++ [c].
Proof.
  intros Hc. induction s as [|a s [front IH]]; simpl.
  - rewrite Hc. by exists [].
  - destruct (isspace a); [by exists front|]. by exists (a :: s).
Qed.

Lemma rstrip_last s c front : rstrip s = front ++ [c] -> isspace c = false.
Proof.
  unfold rstrip. intros H.
  apply (f_equal (@rev char)) in H. rewrite rev_involutive, rev_app_distr in H.
  by apply lstrip_head in H.
Qed.

Lemma rstrip_head s c rest :
  isspace c = false -> exists rest', rstrip (c :: rest) = c :: rest'.
Proof.
  intros Hc. unfold rstrip. simpl.
  destruct (lstrip_snoc (rev rest) c Hc) as [front ->].
  rewrite rev_app_distr. simpl. by eexists.
Qed.

Lemma strip_trimmed t : trimmed (strip t).
Proof.
  unfold strip. split.
  - intros c rest H.
    destruct (lstrip t) as [|c0 r0] eqn:Hl; [done|].
    pose proof (lstrip_head _ _ _ Hl) as Hc0.
    destruct (rstrip_head t c0 r0 Hc0) as [rest' Hr].
    rewrite Hr in H. by injection H as <- _.
  - intros c front H. by apply rstrip_last in H.
Qed.

End trimming.

(** A text that comes from a dialog is stored without whitespace at either
    end: the new card of an add and the card of an edit carry the answer
    stripped, which neither starts nor ends with a whitespace character
    (and is empty when the answer was whitespace only). *)
Theorem dialog_texts_trimmed (t : str) (io : write_outcome) (s : app) :
  t <> [] ->
  trimmed (strip t) /\
  text_of (add_task_dialog (Some t) io s) (length (heap s)) = VStr (strip t) /\
  (forall self : card, self < length (heap s) ->
     text_of (edit self (Some t) io s) self = VStr (strip t)).
Proof.
  intros Ht. split; [apply strip_trimmed|].
  destruct t as [|a t]; [done|]. split.
  - unfold add_task_dialog, add_task. cbn [truthy TaskCard snd].
    autorewrite with board. by apply text_of_new.
  - intros self Hself. unfold edit. cbn [truthy].
    autorewrite with board. unfold text_of, set_text. cbn [heap set_heap].
    by rewrite list_lookup_total_insert_eq.
Qed.

Lemma dialog_texts_trimmed_witness :
  text_of (add_task_dialog (Some (py "  walk the dog ")) Written (fresh None)) 0
  = VStr (py "walk the dog").
Proof.
  destruct (dialog_texts_trimmed (py "  walk the dog ") Written (fresh None))
    as (_ & H & _).
  - vm_compute. discriminate.
  - exact H.
Defined.

(** ** The mouse wheel *)

Lemma wheel_quotient (delta : Z) :
  (-1 * (inject_Z delta / 120))%Q = ((- delta) # 120)%Q.
Proof.
  unfold Qdiv, Qinv, Qmult, inject_Z. cbn [Qnum Qden Pos.mul].
  f_equal. lia.
Qed.

Lemma mousewheel_units_quot (delta : Z) : mousewheel_units delta = (- (delta ÷ 120))%Z.
Proof.
  unfold mousewheel_units. rewrite wheel_quotient.
  unfold py_int, Qle_bool, Qfloor, Qceiling, Qopp. cbn [Qnum Qden].
  rewrite Z.mul_1_r. change (0 * 120)%Z with 0%Z.
  destruct (0 <=? - delta)%Z eqn:Hs.
  - apply Z.leb_le in Hs.
    replace (delta ÷ 120)%Z with (- ((- delta) ÷ 120))%Z
      by (rewrite Z.quot_opp_l by lia; lia).
    rewrite Z.opp_involutive. symmetry. apply Z.quot_div_nonneg; lia.
  - apply Z.leb_gt in Hs. rewrite Z.opp_involutive.
    f_equal. symmetry. apply Z.quot_div_nonneg; lia.
Qed.



(** * The widgets *)

(** ** Packing *)

Section remove_all.
Context `{EqDecision A}.
Implicit Types (x : A) (l cs : list A).

Lemma elem_of_remove_all cs l x :
  x ∈ foldl (fun l c => py_remove c l) l cs -> x ∈ l.
Proof.
  revert l. induction cs as [|c cs IH]; intros l; simpl; [done|].
  intros H%IH. by eapply elem_of_py_remove.
Qed.

Lemma NoDup_remove_all cs l :
  NoDup l -> NoDup (foldl (fun l c => py_remove c l) l cs).
Proof.
  revert l. induction cs as [|c cs IH]; intros l Hl; simpl; [done|].
  by apply IH, NoDup_py_remove.
Qed.

Lemma remove_all_gone cs l x :
  NoDup l -> x ∈ cs -> x ∉ foldl (fun l c => py_remove c l) l cs.
Proof.
  revert l. induction cs as [|c cs IH]; intros l Hl; simpl; [by intros ?%elem_of_nil|].
  intros [->|Hx]%elem_of_cons.
  - intros H%elem_of_remove_all. by apply (py_remove_gone c l).
  - apply IH; [by apply NoDup_py_remove | done].
Qed.

Lemma remove_all_keeps cs l x :
  x ∈ l -> x ∉ cs -> x ∈ foldl (fun l c => py_remove c l) l cs.
Proof.
  revert l. induction cs as [|c cs IH]; intros l Hl; simpl; [done|].
  intros [Hne Hx]%not_elem_of_cons. apply IH; [|done].
  by apply elem_of_py_remove_ne.
Qed.

(** Forgetting every card that is packed leaves nothing packed. *)
Lemma remove_all_nil cs l :
  NoDup l -> (forall x, x ∈ l -> x ∈ cs) -> foldl (fun l c => py_remove c l) l cs = [].
Proof.
  intros Hl Hsub.
  destruct (foldl _ l cs) as [|x r] eqn:Hr; [done|]. exfalso.
  assert (x ∈ foldl (fun l c => py_remove c l) l cs) as Hx by (rewrite Hr; left).
  apply (remove_all_gone cs l x); [done| |done].
  by apply Hsub, (elem_of_remove_all cs).
Qed.

(** Forgetting all but one leaves that one. *)
Lemma remove_all_but_one l x :
  NoDup l -> x ∈ l -> foldl (fun l c => py_remove c l) l (py_remove x l) = [x].
Proof.
  intros Hl Hx.
  apply Permutation_length_1_inv. symmetry.
  apply NoDup_Permutation.
  - by apply NoDup_remove_all.
  - apply NoDup_singleton.
  - intros y. rewrite list_elem_of_singleton. split.
    + intros Hy. destruct (decide (y = x)) as [|Hne]; [done|]. exfalso.
      apply (remove_all_gone (py_remove x l) l y); [done| |done].
      apply elem_of_py_remove_ne; [done|]. by eapply elem_of_remove_all.
    + intros ->. apply remove_all_keeps; [done|]. by apply py_remove_gone.
Qed.

End remove_all.

Section packing.
Implicit Types (g : Gui.gui) (c : card) (cs : list card).

Lemma forget_all_cons c cs g :
  Gui.forget_all (c :: cs) g = Gui.forget_all cs (Gui.state_of (Gui.tk_pack_forget c g)).
Proof. done. Qed.

Lemma tk_pack_forget_active c g :
  Gui.destroyed (Gui.widgets g !!! c) = false ->
  Gui.parent_frame (Gui.widgets g !!! c) = Gui.ActiveArea ->
  Gui.tk_pack_forget c g =
  Gui.Done {| Gui.board := Gui.board g; Gui.widgets := Gui.widgets g;
              Gui.active_slaves := py_remove c (Gui.active_slaves g);
              Gui.completed_slaves := Gui.completed_slaves g |}.
Proof. intros Ha Hp. unfold Gui.tk_pack_forget. by rewrite Ha, Hp. Qed.

Lemma tk_pack_active c g :
  Gui.destroyed (Gui.widgets g !!! c) = false ->
  Gui.parent_frame (Gui.widgets g !!! c) = Gui.ActiveArea ->
  c ∉ Gui.active_slaves g ->
  Gui.tk_pack c g =
  Gui.Done {| Gui.board := Gui.board g; Gui.widgets := Gui.widgets g;
              Gui.active_slaves := Gui.active_slaves g ++ [c];
              Gui.completed_slaves := Gui.completed_slaves g |}.
Proof.
  intros Ha Hp Hc. unfold Gui.tk_pack. rewrite Ha, Hp. cbn [Gui.slaves].
  by rewrite decide_False.
Qed.

Lemma forget_all_active cs g :
  Gui.packable g cs ->
  Gui.forget_all cs g =
  {| Gui.board := Gui.board g; Gui.widgets := Gui.widgets g;
     Gui.active_slaves := foldl (fun l c => py_remove c l) (Gui.active_slaves g) cs;
     Gui.completed_slaves := Gui.completed_slaves g |}.
Proof.
  revert g. induction cs as [|c cs IH]; intros g Hcs.
  - by destruct g.
  - destruct (Hcs c) as [Halive Hparent]; [left|].
    rewrite forget_all_cons, tk_pack_forget_active by done. cbn [Gui.state_of].
    rewrite IH; [done|].
    intros c' Hc'. apply Hcs. by right.
Qed.

Lemma pack_all_active cs g :
  Gui.packable g cs -> NoDup cs ->
  (forall c, c ∈ cs -> c ∉ Gui.active_slaves g) ->
  Gui.pack_all cs g =
  Gui.Done {| Gui.board := Gui.board g; Gui.widgets := Gui.widgets g;
              Gui.active_slaves := Gui.active_slaves g ++ cs;
              Gui.completed_slaves := Gui.completed_slaves g |}.
Proof.
  revert g. induction cs as [|c cs IH]; intros g Hcs Hnd Hnew.
  - simpl. rewrite app_nil_r. by destruct g.
  - destruct (Hcs c) as [Halive Hparent]; [left|].
    cbn [Gui.pack_all]. rewrite tk_pack_active by (done || apply Hnew; left).
    cbn [Gui.and_then].
    apply NoDup_cons in Hnd as [Hc Hnd].
    rewrite IH; cbn [Gui.board Gui.widgets Gui.active_slaves Gui.completed_slaves].
    + by rewrite <- app_assoc.
    + intros c' Hc'. apply Hcs. by right.
    + done.
    + intros c' Hc'. rewrite not_elem_of_app. split; [apply Hnew; by right|].
      rewrite list_elem_of_singleton. intros ->. done.
Qed.

(** [repack_task_cards] on live active cards: what is packed and is no task
    stays in front, the tasks follow in their order. *)
Lemma repack_result g :
  Gui.packable g (tasks (Gui.board g)) ->
  NoDup (tasks (Gui.board g)) ->
  NoDup (Gui.active_slaves g) ->
  Gui.repack_task_cards g =
  Gui.Done {| Gui.board := Gui.board g; Gui.widgets := Gui.widgets g;
              Gui.active_slaves :=
                foldl (fun l c => py_remove c l) (Gui.active_slaves g)
                  (tasks (Gui.board g))
                ++ tasks (Gui.board g);
              Gui.completed_slaves := Gui.completed_slaves g |}.
Proof.
  intros Hp Hnd Hs. unfold Gui.repack_task_cards.
  rewrite forget_all_active by done.
  rewrite pack_all_active; [done|done|done|].
  intros c Hc. by apply remove_all_gone.
Qed.

End packing.

(** ** The screen after each change *)

Section shown.
Implicit Types (g : Gui.gui) (b : app) (c self : card).

Lemma shown_alive_listed g c :
  Gui.shown g -> c < length (Gui.widgets g) ->
  Gui.destroyed (Gui.widgets g !!! c) = false ->
  c ∈ tasks (Gui.board g) \/ c ∈ completed (Gui.board g).
Proof.
  intros (_ & _ & _ & _ & _ & _ & Hdead) Hc Halive.
  destruct (decide (c ∈ tasks (Gui.board g))); [by left|].
  destruct (decide (c ∈ completed (Gui.board g))); [by right|].
  rewrite Hdead in Halive; done.
Qed.

Lemma shown_listed_lt g c :
  Gui.shown g -> c ∈ tasks (Gui.board g) ++ completed (Gui.board g) ->
  c < length (Gui.widgets g).
Proof.
  intros (Hlen & [_ Hlt]%wf_alt & _) Hc. rewrite Hlen. by apply Hlt.
Qed.

(** A new card, appended to one of the lists. *)
Lemma shown_grow g b (o : card_obj) (w : Gui.card_widgets) (A K : list card) :
  Gui.shown g -> wf b ->
  heap b = heap (Gui.board g) ++ [o] ->
  A = tasks b -> K = completed b ->
  (tasks b = tasks (Gui.board g) ++ [length (heap (Gui.board g))] /\
   completed b = completed (Gui.board g) /\ Gui.on_active o w) \/
  (tasks b = tasks (Gui.board g) /\
   completed b = completed (Gui.board g) ++ [length (heap (Gui.board g))] /\
   Gui.on_completed o w) ->
  Gui.shown {| Gui.board := b; Gui.widgets := Gui.widgets g ++ [w];
               Gui.active_slaves := A; Gui.completed_slaves := K |}.
Proof.
  intros Hs Hwf Hheap -> -> Hcase.
  pose proof (fun c => shown_listed_lt g c Hs) as Hlt.
  destruct Hs as (Hlen & Hwf0 & _ & _ & Hact & Hcomp & Hdead).
  set (n := length (heap (Gui.board g))) in *.
  assert (forall c, c < n ->
            heap b !!! c = heap (Gui.board g) !!! c /\
            (Gui.widgets g ++ [w]) !!! c = Gui.widgets g !!! c) as Hold.
  { intros c Hc. rewrite Hheap. rewrite !lookup_total_app_l by (rewrite ?Hlen; done). done. }
  assert (heap b !!! n = o /\ (Gui.widgets g ++ [w]) !!! n = w) as [Hno Hnw].
  { rewrite Hheap. split; apply list_lookup_total_middle; [done | by rewrite <- Hlen]. }
  unfold Gui.shown. cbn [Gui.board Gui.widgets Gui.active_slaves Gui.completed_slaves].
  split; [by rewrite Hheap, !length_app, Hlen|]. split; [done|].
  split; [done|]. split; [done|].
  destruct Hcase as [(Ht & Hc & Hon)|(Ht & Hc & Hon)]; rewrite Ht, Hc.
  - split; [|split].
    + intros c [Hin|Hin]%elem_of_app.
      * destruct (Hold c) as [-> ->]; [rewrite <- Hlen; apply Hlt, elem_of_app; by left|].
        by apply Hact.
      * apply list_elem_of_singleton in Hin as ->. by rewrite Hno, Hnw.
    + intros c Hin.
      destruct (Hold c) as [-> ->]; [rewrite <- Hlen; apply Hlt, elem_of_app; by right|].
      by apply Hcomp.
    + intros c Hc' Hnt Hnc. rewrite length_app, Nat.add_1_r in Hc'.
      apply not_elem_of_app in Hnt as [Hnt Hnn]. rewrite list_elem_of_singleton in Hnn.
      destruct (Hold c) as [_ ->]; [unfold n in *; lia|].
      apply Hdead; [unfold n in *; lia|done..].
  - split; [|split].
    + intros c Hin.
      destruct (Hold c) as [-> ->]; [rewrite <- Hlen; apply Hlt, elem_of_app; by left|].
      by apply Hact.
    + intros c [Hin|Hin]%elem_of_app.
      * destruct (Hold c) as [-> ->]; [rewrite <- Hlen; apply Hlt, elem_of_app; by right|].
        by apply Hcomp.
      * apply list_elem_of_singleton in Hin as ->. by rewrite Hno, Hnw.
    + intros c Hc' Hnt Hnc. rewrite length_app, Nat.add_1_r in Hc'.
      apply not_elem_of_app in Hnc as [Hnc Hnn]. rewrite list_elem_of_singleton in Hnn.
      destruct (Hold c) as [_ ->]; [unfold n in *; lia|].
      apply Hdead; [unfold n in *; lia|done..].
Qed.

(** A card taken off its list and destroyed. *)
Lemma shown_retire g b self (A K : list card) :
  Gui.shown g -> self < length (Gui.widgets g) ->
  heap b = heap (Gui.board g) ->
  tasks b = py_remove self (tasks (Gui.board g)) ->
  completed b = py_remove self (completed (Gui.board g)) ->
  A = tasks b -> K = completed b ->
  Gui.shown {| Gui.board := b;
               Gui.widgets := <[self := Gui.with_destroyed (Gui.widgets g !!! self)]>
                                (Gui.widgets g);
               Gui.active_slaves := A; Gui.completed_slaves := K |}.
Proof.
  intros (Hlen & Hwf0 & _ & _ & Hact & Hcomp & Hdead) Hself Hheap Ht Hc -> ->.
  pose proof Hwf0 as [Hnd _].
  apply NoDup_app in Hnd as (Hndt & _ & Hndc).
  unfold Gui.shown. cbn [Gui.board Gui.widgets Gui.active_slaves Gui.completed_slaves].
  rewrite length_insert, Hheap, Ht, Hc.
  split; [done|]. split; [|split; [done|split; [done|]]].
  - apply (wf_submseteq (Gui.board g)); [done| |by rewrite Hheap].
    rewrite Ht, Hc. apply submseteq_app; apply sublist_submseteq, py_remove_sublist.
  - split; [|split].
    + intros c Hin.
      assert (c <> self) by (intros ->; by apply (py_remove_gone self (tasks (Gui.board g)))).
      rewrite list_lookup_total_insert_ne by done.
      by apply Hact, (elem_of_py_remove self).
    + intros c Hin.
      assert (c <> self)
        by (intros ->; by apply (py_remove_gone self (completed (Gui.board g)))).
      rewrite list_lookup_total_insert_ne by done.
      by apply Hcomp, (elem_of_py_remove self).
    + intros c Hlt Hnt Hnc. destruct (decide (c = self)) as [->|Hne].
      * by rewrite list_lookup_total_insert_eq.
      * rewrite list_lookup_total_insert_ne by done.
        apply Hdead; [done| |].
        -- intros Hin. apply Hnt. by apply elem_of_py_remove_ne.
        -- intros Hin. apply Hnc. by apply elem_of_py_remove_ne.
Qed.

(** One card changed in place, the active cards possibly reordered. *)
Lemma shown_update g b self (o : card_obj) (w : Gui.card_widgets) (A K : list card) :
  Gui.shown g ->
  heap b = <[self := o]> (heap (Gui.board g)) ->
  tasks b ≡ₚ tasks (Gui.board g) ->
  completed b = completed (Gui.board g) ->
  A = tasks b -> K = completed b ->
  (self ∈ tasks (Gui.board g) -> Gui.on_active o w) ->
  (self ∈ completed (Gui.board g) -> Gui.on_completed o w) ->
  (self ∉ tasks (Gui.board g) -> self ∉ completed (Gui.board g) ->
   Gui.destroyed w = true) ->
  Gui.shown {| Gui.board := b;
               Gui.widgets := <[self := w]> (Gui.widgets g);
               Gui.active_slaves := A; Gui.completed_slaves := K |}.
Proof.
  intros Hs Hheap Ht Hc -> -> Hsa Hsc Hsd.
  pose proof (fun c => shown_listed_lt g c Hs) as Hlt.
  destruct Hs as (Hlen & Hwf0 & _ & _ & Hact & Hcomp & Hdead).
  unfold Gui.shown. cbn [Gui.board Gui.widgets Gui.active_slaves Gui.completed_slaves].
  rewrite Hheap, !length_insert, Hc.
  split; [done|]. split; [|split; [done|split; [done|]]].
  - apply (wf_submseteq (Gui.board g)); [done| |by rewrite Hheap, length_insert].
    rewrite Hc. apply submseteq_app; [by rewrite Ht | done].
  - split; [|split].
    + intros c Hin. rewrite Ht in Hin. destruct (decide (c = self)) as [->|Hne].
      * assert (self < length (Gui.widgets g)) by (apply Hlt, elem_of_app; by left).
        rewrite !list_lookup_total_insert_eq by (rewrite <- ?Hlen; done). auto.
      * rewrite !list_lookup_total_insert_ne by done. auto.
    + intros c Hin. destruct (decide (c = self)) as [->|Hne].
      * assert (self < length (Gui.widgets g)) by (apply Hlt, elem_of_app; by right).
        rewrite !list_lookup_total_insert_eq by (rewrite <- ?Hlen; done). auto.
      * rewrite !list_lookup_total_insert_ne by done. auto.
    + intros c Hc' Hnt Hnc. rewrite Ht in Hnt. destruct (decide (c = self)) as [->|Hne].
      * rewrite list_lookup_total_insert_eq by done. auto.
      * rewrite list_lookup_total_insert_ne by done. auto.
Qed.

Lemma shown_save_state io g : Gui.shown g -> Gui.shown (Gui.save_state io g).
Proof. by destruct io. Qed.

Lemma shown_if_save (save : bool) io g :
  Gui.shown g -> Gui.shown (if save then Gui.save_state io g else g).
Proof. destruct save; [apply shown_save_state | done]. Qed.

End shown.

Ltac gui_fields :=
  cbn [Gui.set_board Gui.set_widgets Gui.set_slaves Gui.slaves Gui.save_state
       Gui.board Gui.widgets Gui.active_slaves Gui.completed_slaves].

Ltac gui_unfold :=
  unfold Gui.set_board, Gui.set_widgets;
  cbn [Gui.set_slaves Gui.slaves Gui.board Gui.widgets Gui.active_slaves
       Gui.completed_slaves].

Section handlers.
Implicit Types (g : Gui.gui) (c self : card).

Lemma board_save_state io g :
  Gui.board (Gui.save_state io g) = save_state io (Gui.board g).
Proof. done. Qed.

Lemma gui_add_task t save io g :
  Gui.shown g ->
  exists g', Gui.add_task t save io g = Gui.Done g' /\ Gui.shown g' /\
             Gui.board g' = snd (add_task t save io (Gui.board g)).
Proof.
  intros Hs.
  pose proof (fun c => shown_listed_lt g c Hs) as Hlt.
  pose proof Hs as (Hlen & Hwf & Hact & Hcomp & Hon_a & Hon_c & Hdead).
  pose proof (wf_add_task t false io (Gui.board g) Hwf) as Hwf'.
  unfold add_task in Hwf'. cbn [TaskCard snd] in Hwf'.
  unfold Gui.add_task, Gui.TaskCard, TaskCard.
  cbn [Gui.set_slaves Gui.slaves Gui.set_widgets Gui.set_board Gui.board Gui.widgets
       Gui.active_slaves Gui.completed_slaves].
  set (n := length (heap (Gui.board g))) in *.
  set (b := set_tasks _ _) in *.
  set (g2 := Gui.set_board b _).
  assert (tasks b = tasks (Gui.board g) ++ [n]) as Htb by done.
  assert (Gui.packable g2 (tasks (Gui.board g2))) as Hpack.
  { intros c. cbn [g2 Gui.set_board Gui.board Gui.widgets]. rewrite Htb.
    intros [Hin|Hin]%elem_of_app.
    - rewrite lookup_total_app_l by (apply Hlt, elem_of_app; by left).
      destruct (Hon_a c Hin) as (? & ? & _). done.
    - apply list_elem_of_singleton in Hin as ->.
      rewrite list_lookup_total_middle by done. done. }
  destruct Hwf' as [[Hnd _]%NoDup_app _].
  rewrite (repack_result g2 Hpack) by (cbn [g2 Gui.set_board Gui.board Gui.active_slaves];
                                       rewrite ?Hact; done).
  cbn [Gui.and_then g2 Gui.set_board Gui.board Gui.widgets Gui.active_slaves
       Gui.completed_slaves].
  rewrite Hact, remove_all_nil; [|by rewrite <- Htb|by rewrite Htb].
  eexists. split; [reflexivity|]. split.
  - apply shown_if_save.
    apply (shown_grow g b (new_obj t) (Gui.new_widgets Gui.ActiveArea t));
      try done.
    + by apply (wf_add_task t false io).
    + left. done.
  - by destruct save.
Qed.

Lemma gui_add_completed_task t save io g :
  Gui.shown g ->
  exists g', Gui.add_completed_task t save io g = Gui.Done g' /\ Gui.shown g' /\
             Gui.board g' = snd (add_completed_task t save io (Gui.board g)).
Proof.
  intros Hs.
  pose proof Hs as (Hlen & Hwf & Hact & Hcomp & Hon_a & Hon_c & Hdead).
  unfold Gui.add_completed_task, Gui.TaskCard, TaskCard, Gui.mark_as_completed,
    Gui.tk_configure.
  cbn [Gui.set_slaves Gui.slaves Gui.set_widgets Gui.set_board Gui.board Gui.widgets
       Gui.active_slaves Gui.completed_slaves].
  rewrite list_lookup_total_middle by done.
  cbn [Gui.new_widgets Gui.destroyed Gui.and_then Gui.set_widgets Gui.board Gui.widgets
       Gui.active_slaves Gui.completed_slaves Gui.parent_frame Gui.title_text].
  rewrite insert_app_r_alt by lia.
  replace (length (heap (Gui.board g)) - length (Gui.widgets g)) with 0 by lia.
  cbn [insert list_insert].
  eexists. split; [reflexivity|]. split.
  - apply shown_if_save.
    unfold Gui.set_board.
    cbn [Gui.board Gui.widgets Gui.active_slaves Gui.completed_slaves].
    eapply (shown_grow g _ (new_obj t));
      [done | by apply (wf_add_completed_task t false io) | done
      | exact Hact
      | cbn [Gui.completed_slaves Gui.set_widgets completed set_completed set_heap];
        by rewrite Hcomp
      |].
    right. done.
  - by destruct save.
Qed.

Lemma tk_destroy_alive c g :
  Gui.destroyed (Gui.widgets g !!! c) = false ->
  Gui.tk_destroy c g =
  Gui.set_widgets (<[c := Gui.with_destroyed (Gui.widgets g !!! c)]> (Gui.widgets g))
    (Gui.set_slaves (Gui.parent_frame (Gui.widgets g !!! c))
       (py_remove c (Gui.slaves (Gui.parent_frame (Gui.widgets g !!! c)) g)) g).
Proof. intros H. unfold Gui.tk_destroy. by rewrite H. Qed.

(** An active card off [tasks]: destroyed and the rest repacked (as in
    [complete]), or the rest repacked and then destroyed (as in [delete]). *)
Lemma gui_retire_active g self :
  Gui.shown g -> self ∈ tasks (Gui.board g) ->
  let b := set_tasks (py_remove self (tasks (Gui.board g))) (Gui.board g) in
  let g' := {| Gui.board := b;
               Gui.widgets := <[self := Gui.with_destroyed (Gui.widgets g !!! self)]>
                                (Gui.widgets g);
               Gui.active_slaves := tasks b;
               Gui.completed_slaves := completed b |} in
  Gui.shown g' /\
  Gui.repack_task_cards (Gui.tk_destroy self (Gui.set_board b g)) = Gui.Done g' /\
  exists g1, Gui.repack_task_cards (Gui.set_board b g) = Gui.Done g1 /\
             Gui.tk_destroy self g1 = g'.
Proof.
  intros Hs Hself. cbv zeta.
  pose proof (fun c => shown_listed_lt g c Hs) as Hlt.
  pose proof Hs as (Hlen & Hwf & Hact & Hcomp & Hon_a & Hon_c & Hdead).
  pose proof Hwf as [Hnd _]. apply NoDup_app in Hnd as (Hndt & Hdisj & Hndc).
  destruct (Hon_a self Hself) as (Hparent & Halive & _).
  assert (self < length (Gui.widgets g)) as Hself_lt by (apply Hlt, elem_of_app; by left).
  set (b := set_tasks (py_remove self (tasks (Gui.board g))) (Gui.board g)).
  assert (forall c, c ∈ py_remove self (tasks (Gui.board g)) ->
            c <> self /\ c ∈ tasks (Gui.board g)) as Hrest.
  { intros c Hc. split; [|by eapply elem_of_py_remove].
    intros ->. by apply (py_remove_gone self (tasks (Gui.board g))). }
  split; [|split].
  - apply (shown_retire g b self); try done.
    cbn [b completed set_tasks]. symmetry. apply py_remove_notin. by apply Hdisj.
  - rewrite tk_destroy_alive by done.
    cbn [Gui.set_board Gui.widgets]. rewrite Hparent.
    cbn [Gui.set_slaves Gui.slaves Gui.set_widgets Gui.board Gui.widgets
         Gui.active_slaves Gui.completed_slaves].
    rewrite repack_result; gui_fields; cbn [b tasks set_tasks].
    + rewrite Hact, remove_all_nil by (done || by apply NoDup_py_remove).
      by rewrite Hcomp.
    + unfold Gui.packable. gui_fields.
      intros c [Hne Hc]%Hrest. rewrite list_lookup_total_insert_ne by done.
      destruct (Hon_a c Hc) as (? & ? & _). done.
    + by apply NoDup_py_remove.
    + rewrite Hact. by apply NoDup_py_remove.
  - eexists. split.
    + rewrite repack_result; gui_fields; cbn [b tasks set_tasks];
        [reflexivity| |by apply NoDup_py_remove|by rewrite Hact].
      unfold Gui.packable. gui_fields.
      intros c [Hne Hc]%Hrest. destruct (Hon_a c Hc) as (? & ? & _). done.
    + rewrite tk_destroy_alive by done.
      cbn [Gui.widgets]. rewrite Hparent.
      cbn [Gui.set_slaves Gui.slaves Gui.set_widgets Gui.board Gui.widgets
           Gui.active_slaves Gui.completed_slaves].
      rewrite Hact, remove_all_but_one by done.
      simpl. rewrite decide_True by done. by rewrite Hcomp.
Qed.

(** A completed card off [completed] and destroyed. *)
Lemma gui_retire_completed g self :
  Gui.shown g -> self ∈ completed (Gui.board g) ->
  let b := set_completed (py_remove self (completed (Gui.board g))) (Gui.board g) in
  Gui.shown (Gui.tk_destroy self (Gui.set_board b g)) /\
  Gui.board (Gui.tk_destroy self (Gui.set_board b g)) = b.
Proof.
  intros Hs Hself. cbv zeta.
  pose proof (fun c => shown_listed_lt g c Hs) as Hlt.
  pose proof Hs as (Hlen & Hwf & Hact & Hcomp & Hon_a & Hon_c & Hdead).
  pose proof Hwf as [Hnd _]. apply NoDup_app in Hnd as (Hndt & Hdisj & Hndc).
  destruct (Hon_c self Hself) as (Hparent & Halive & _).
  assert (self < length (Gui.widgets g)) as Hself_lt by (apply Hlt, elem_of_app; by right).
  rewrite tk_destroy_alive by done.
  cbn [Gui.set_board Gui.widgets]. rewrite Hparent.
  cbn [Gui.set_slaves Gui.slaves Gui.set_widgets Gui.board Gui.widgets
       Gui.active_slaves Gui.completed_slaves].
  gui_unfold.
  split; [|done].
  apply (shown_retire g _ self);
    [done | done | done | | done | exact Hact | by rewrite Hcomp].
  cbn [tasks set_completed]. symmetry. apply py_remove_notin.
  intros Hin. by apply (Hdisj self).
Qed.

Lemma gui_complete self save io g :
  Gui.shown g -> self ∈ tasks (Gui.board g) ->
  exists g', Gui.complete self save io g = Gui.Done g' /\ Gui.shown g' /\
             Gui.board g' = complete self save io (Gui.board g).
Proof.
  intros Hs Hself.
  destruct (gui_add_completed_task (text_of (Gui.board g) self) false io g Hs)
    as (g1 & H1 & Hs1 & Hb1).
  unfold Gui.complete. rewrite H1. cbn [Gui.and_then].
  assert (tasks (Gui.board g1) = tasks (Gui.board g)) as Ht1 by (by rewrite Hb1).
  assert (self ∈ tasks (Gui.board g1)) as Hself1 by (by rewrite Ht1).
  rewrite decide_True by done.
  destruct (gui_retire_active g1 self Hs1 Hself1) as (Hs' & -> & _).
  cbn [Gui.and_then]. eexists. split; [reflexivity|]. split.
  - by apply shown_if_save.
  - unfold complete. rewrite <- Hb1. rewrite decide_True by done. by destruct save.
Qed.

Lemma gui_restore self save io g :
  Gui.shown g -> self ∈ completed (Gui.board g) ->
  exists g', Gui.restore self save io g = Gui.Done g' /\ Gui.shown g' /\
             Gui.board g' = restore self save io (Gui.board g).
Proof.
  intros Hs Hself.
  destruct (gui_retire_completed g self Hs Hself) as (Hs2 & Hb2).
  unfold Gui.restore. rewrite decide_True by done.
  set (g2 := Gui.tk_destroy self _) in *.
  destruct (gui_add_task (text_of (Gui.board g2) self) false io g2 Hs2)
    as (g3 & H3 & Hs3 & Hb3).
  rewrite H3. cbn [Gui.and_then]. eexists. split; [reflexivity|]. split.
  - by apply shown_if_save.
  - unfold restore. rewrite decide_True by done. rewrite <- Hb2, <- Hb3.
    by destruct save.
Qed.

Lemma gui_delete_card self io g :
  Gui.shown g -> self < length (Gui.widgets g) ->
  Gui.destroyed (Gui.widgets g !!! self) = false ->
  exists g', Gui.delete_card self io g = Gui.Done g' /\ Gui.shown g' /\
             Gui.board g' = delete_card self io (Gui.board g).
Proof.
  intros Hs Hlt Halive. unfold Gui.delete_card, delete_card.
  destruct (decide (self ∈ tasks (Gui.board g))) as [Hself|Hnt].
  - destruct (gui_retire_active g self Hs Hself) as (Hs' & _ & g1 & -> & Hd).
    cbn [Gui.and_then]. rewrite Hd. eexists. split; [reflexivity|]. split.
    + by apply shown_save_state.
    + done.
  - destruct (shown_alive_listed g self Hs Hlt Halive) as [|Hself]; [done|].
    rewrite decide_True by done. cbn [Gui.and_then].
    destruct (gui_retire_completed g self Hs Hself) as (Hs' & Hb').
    eexists. split; [reflexivity|]. split.
    + by apply shown_save_state.
    + rewrite board_save_state, Hb'. by rewrite decide_True.
Qed.

Lemma tk_configure_alive c f g :
  Gui.destroyed (Gui.widgets g !!! c) = false ->
  Gui.tk_configure c f g =
  Gui.Done (Gui.set_widgets (<[c := f (Gui.widgets g !!! c)]> (Gui.widgets g)) g).
Proof. intros H. unfold Gui.tk_configure. by rewrite H. Qed.

Lemma gui_add_task_dialog answer io g :
  Gui.shown g ->
  exists g', Gui.add_task_dialog answer io g = Gui.Done g' /\ Gui.shown g' /\
             Gui.board g' = add_task_dialog answer io (Gui.board g).
Proof.
  intros Hs. unfold Gui.add_task_dialog, add_task_dialog.
  destruct answer as [t|]; [|by exists g].
  destruct (truthy (Some t)); [|by exists g].
  by apply gui_add_task.
Qed.

Lemma gui_edit self answer io g :
  Gui.shown g -> self < length (Gui.widgets g) ->
  Gui.destroyed (Gui.widgets g !!! self) = false ->
  exists g', Gui.edit self answer io g = Gui.Done g' /\ Gui.shown g' /\
             Gui.board g' = edit self answer io (Gui.board g).
Proof.
  intros Hs Hlt Halive. unfold Gui.edit, edit.
  destruct answer as [t|]; [|by exists g].
  destruct (truthy (Some t)); [|by exists g].
  pose proof Hs as (Hlen & Hwf & Hact & Hcomp & Hon_a & Hon_c & Hdead).
  rewrite tk_configure_alive by done. cbn [Gui.and_then].
  eexists. split; [reflexivity|]. split; [|done].
  apply shown_save_state. gui_unfold.
  assert (text_of (set_text self (VStr (strip t)) (Gui.board g)) self = VStr (strip t))
    as ->.
  { unfold text_of, set_text. cbn [heap set_heap].
    by rewrite list_lookup_total_insert_eq by (by rewrite <- Hlen). }
  eapply (shown_update g _ self); [done|reflexivity|done|done|done|done| | |].
  - intros Hin. destruct (Hon_a self Hin) as (? & ? & ? & ? & _ & ?). by repeat split.
  - intros Hin. destruct (Hon_c self Hin) as (? & ? & ? & ? & _ & ?). by repeat split.
  - intros Hnt Hnc. rewrite Hdead in Halive; done.
Qed.

(** A card with drag bindings is an active card. *)
Lemma shown_draggable g self :
  Gui.shown g -> self < length (Gui.widgets g) ->
  Gui.destroyed (Gui.widgets g !!! self) = false ->
  Gui.drag_bound (Gui.widgets g !!! self) = true ->
  self ∈ tasks (Gui.board g).
Proof.
  intros Hs Hlt Halive Hdrag.
  destruct (shown_alive_listed g self Hs Hlt Halive) as [|Hc]; [done|].
  destruct Hs as (_ & _ & _ & _ & _ & Hon_c & _).
  destruct (Hon_c self Hc) as (_ & _ & Hnd & _). congruence.
Qed.

Lemma shown_button g self :
  Gui.shown g -> self < length (Gui.widgets g) ->
  Gui.destroyed (Gui.widgets g !!! self) = false ->
  match Gui.complete_btn (Gui.widgets g !!! self) with
  | Gui.run_complete => self ∈ tasks (Gui.board g)
  | Gui.run_restore => self ∈ completed (Gui.board g)
  end.
Proof.
  intros Hs Hlt Halive.
  pose proof Hs as (_ & [[_ [Hdisj _]]%NoDup_app _] & _ & _ & Hon_a & Hon_c & _).
  destruct (shown_alive_listed g self Hs Hlt Halive) as [Hin|Hin].
  - destruct (Hon_a self Hin) as (_ & _ & _ & -> & _). done.
  - destruct (Hon_c self Hin) as (_ & _ & _ & -> & _). done.
Qed.

Lemma gui_on_drag_start self g :
  Gui.shown g -> self ∈ tasks (Gui.board g) ->
  exists g', Gui.on_drag_start self g = Gui.Done g' /\ Gui.shown g' /\
             Gui.board g' = on_drag_start self (Gui.board g).
Proof.
  intros Hs Hself.
  pose proof Hs as (Hlen & Hwf & Hact & Hcomp & Hon_a & Hon_c & Hdead).
  pose proof Hwf as [[_ [Hdisj _]]%NoDup_app _].
  destruct (Hon_a self Hself) as (Hp & Halive & Hdrag & Hbtn & Htitle & Hbg).
  unfold Gui.on_drag_start. rewrite tk_configure_alive by done.
  eexists. split; [reflexivity|]. split; [|done].
  gui_unfold. unfold on_drag_start, set_drag_index, set_heap.
  eapply (shown_update g _ self); [done|reflexivity|done|done|done|done| | |].
  - intros _. destruct (py_index_elem_of (tasks (Gui.board g)) self Hself)
      as (n & _ & ->). by repeat split.
  - intros Hin. by destruct (Hdisj self).
  - intros Hnt. done.
Qed.

Lemma gui_on_drag_release self io g :
  Gui.shown g -> self ∈ tasks (Gui.board g) ->
  exists g', Gui.on_drag_release self io g = Gui.Done g' /\ Gui.shown g' /\
             Gui.board g' = on_drag_release self io (Gui.board g).
Proof.
  intros Hs Hself.
  pose proof Hs as (Hlen & Hwf & Hact & Hcomp & Hon_a & Hon_c & Hdead).
  pose proof Hwf as [[_ [Hdisj _]]%NoDup_app _].
  destruct (Hon_a self Hself) as (Hp & Halive & Hdrag & Hbtn & Htitle & Hbg).
  unfold Gui.on_drag_release. rewrite tk_configure_alive by done.
  cbn [Gui.and_then]. eexists. split; [reflexivity|]. split; [|done].
  apply shown_save_state.
  gui_unfold. unfold set_drag_index, set_heap.
  eapply (shown_update g _ self); [done|reflexivity|done|done|done|done| | |].
  - intros _. by repeat split.
  - intros Hin. by destruct (Hdisj self).
  - intros Hnt. done.
Qed.

Lemma existsb_destroyed_tasks g :
  Gui.shown g ->
  existsb (fun c => Gui.destroyed (Gui.widgets g !!! c)) (tasks (Gui.board g)) = false.
Proof.
  intros (_ & _ & _ & _ & Hon_a & _).
  apply not_true_iff_false. intros (c & Hc & Hd)%existsb_exists.
  apply list_elem_of_In in Hc. destruct (Hon_a c Hc) as (_ & Halive & _). congruence.
Qed.

(** A motion either moves the card and repacks, or changes nothing; the
    only exception it can meet is the [IndexError] of [pop]. *)
Lemma gui_on_drag_motion self wy wh py ry g :
  Gui.shown g -> self ∈ tasks (Gui.board g) ->
  (exists g', Gui.on_drag_motion self wy wh py ry g = Gui.Done g' /\ Gui.shown g' /\
              on_drag_motion self wy wh py ry (Gui.board g) = Returns (Gui.board g')) \/
  (Gui.on_drag_motion self wy wh py ry g = Gui.Fail (Gui.Py IndexError) g /\
   on_drag_motion self wy wh py ry (Gui.board g) = Raises IndexError).
Proof.
  intros Hs Hself.
  pose proof Hs as (Hlen & Hwf & Hact & Hcomp & Hon_a & Hon_c & Hdead).
  pose proof Hwf as [[Hndt [Hdisj _]]%NoDup_app _].
  unfold Gui.on_drag_motion, on_drag_motion.
  destruct (drag_index (heap (Gui.board g) !!! self)) as [d|] eqn:Hd;
    [|left; by exists g].
  rewrite existsb_destroyed_tasks by done.
  destruct (_ =? d)%Z; [left; by exists g|].
  destruct (py_pop d (tasks (Gui.board g))) as [[x l']|] eqn:Hpop; [|by right].
  left.
  pose proof (py_pop_Permutation _ _ _ _ Hpop) as Hperm.
  set (t := target_index _ _ _ _).
  assert (py_insert t x l' ≡ₚ tasks (Gui.board g)) as Hperm'
    by (by rewrite py_insert_Permutation).
  rewrite repack_result; gui_fields; cbn [tasks set_tasks set_drag_index set_heap].
  - rewrite Hact, remove_all_nil; [|done|by intros c; rewrite Hperm'].
    rewrite app_nil_l.
    eexists. split; [reflexivity|]. split; [|done].
    rewrite <- (list_insert_id (Gui.widgets g) self (Gui.widgets g !!! self))
      by (apply list_lookup_lookup_total_lt, (shown_listed_lt g); [done|];
          apply elem_of_app; by left).
    unfold set_drag_index, set_heap, set_tasks. cbn [tasks completed heap data_file].
    eapply (shown_update g _ self);
      [done|reflexivity|done|done|done|by rewrite Hcomp| | |].
    + intros _. destruct (Hon_a self Hself) as (? & ? & ? & ? & ? & Hbg).
      rewrite Hd in Hbg. by repeat split.
    + intros Hin. by destruct (Hdisj self).
    + intros Hnt. done.
  - unfold Gui.packable. gui_fields. intros c Hc. rewrite Hperm' in Hc.
    destruct (Hon_a c Hc) as (? & ? & _). done.
  - by rewrite Hperm'.
  - by rewrite Hact.
Qed.

End handlers.

(** ** Start-up and the event loop *)

Section loop.
Implicit Types (g : Gui.gui) (c self : card).

Lemma gui_add_tasks ts g :
  Gui.shown g ->
  exists g', Gui.add_tasks ts g = Gui.Done g' /\ Gui.shown g' /\
             Gui.board g' = add_tasks ts (Gui.board g).
Proof.
  revert g. induction ts as [|t ts IH]; intros g Hs; [by exists g|].
  destruct (gui_add_task t false Written g Hs) as (g1 & H1 & Hs1 & Hb1).
  destruct (IH g1 Hs1) as (g' & H' & Hs' & Hb').
  exists g'. cbn [Gui.add_tasks]. rewrite H1. cbn [Gui.and_then].
  split; [done|]. split; [done|]. by rewrite Hb', Hb1.
Qed.

Lemma gui_add_completed_tasks ts g :
  Gui.shown g ->
  exists g', Gui.add_completed_tasks ts g = Gui.Done g' /\ Gui.shown g' /\
             Gui.board g' = add_completed_tasks ts (Gui.board g).
Proof.
  revert g. induction ts as [|t ts IH]; intros g Hs; [by exists g|].
  destruct (gui_add_completed_task t false Written g Hs) as (g1 & H1 & Hs1 & Hb1).
  destruct (IH g1 Hs1) as (g' & H' & Hs' & Hb').
  exists g'. cbn [Gui.add_completed_tasks]. rewrite H1. cbn [Gui.and_then].
  split; [done|]. split; [done|]. by rewrite Hb', Hb1.
Qed.

Lemma gui_load_state g :
  Gui.shown g ->
  fst (Gui.load_state g) = fst (load_state (Gui.board g)) /\
  Gui.shown (snd (Gui.load_state g)) /\
  Gui.board (snd (Gui.load_state g)) = snd (load_state (Gui.board g)).
Proof.
  intros Hs. unfold Gui.load_state, load_state.
  destruct (data_file (Gui.board g)) as [[|[]]|]; try done.
  destruct (py_iter (dict_get d (py "tasks") (VList []))) as [ts|]; [|done].
  destruct (gui_add_tasks ts g Hs) as (g1 & -> & Hs1 & <-).
  destruct (py_iter (dict_get d (py "completed") (VList []))) as [cs|]; [|done].
  destruct (gui_add_completed_tasks cs g1 Hs1) as (g2 & -> & Hs2 & <-).
  done.
Qed.

Lemma shown_empty disk : Gui.shown (Gui.empty disk).
Proof.
  unfold Gui.shown, Gui.empty.
  cbn [Gui.board Gui.widgets Gui.active_slaves Gui.completed_slaves
       fresh tasks completed heap length].
  split; [done|]. split; [apply wf_fresh|]. split; [done|]. split; [done|].
  split; [|split].
  - intros x Hx. by apply elem_of_nil in Hx.
  - intros x Hx. by apply elem_of_nil in Hx.
  - intros x Hx. lia.
Qed.

Lemma gui_init disk io :
  exists g0, Gui.init disk io = Gui.Done g0 /\ Gui.shown g0 /\
             Gui.board g0 = init disk io.
Proof.
  unfold Gui.init, init.
  destruct (gui_load_state (Gui.empty disk) (shown_empty disk)) as (Hf & Hs & Hb).
  change (Gui.board (Gui.empty disk)) with (fresh disk) in *.
  destruct (Gui.load_state (Gui.empty disk)) as [found g1].
  destruct (load_state (fresh disk)) as [found' s1].
  cbn [fst snd] in *. subst found' s1.
  destruct found; [by exists g1|].
  destruct (gui_add_tasks (map VStr default_tasks) g1 Hs) as (g2 & -> & Hs2 & Hb2).
  cbn [Gui.and_then]. eexists. split; [reflexivity|].
  split; [by apply shown_save_state|]. by rewrite board_save_state, Hb2.
Qed.

(** One input to a window that shows its board. *)
Lemma gui_step i io g :
  Gui.shown g -> Gui.delivered i g ->
  bound (Gui.event_of i g) (Gui.board g) /\
  ((exists g', Gui.handle i io g = Gui.Done g' /\ Gui.shown g' /\
               handle (Gui.event_of i g) io (Gui.board g) = Returns (Gui.board g')) \/
   (Gui.handle i io g = Gui.Fail (Gui.Py IndexError) g /\
    handle (Gui.event_of i g) io (Gui.board g) = Raises IndexError)).
Proof.
  intros Hs Hd. pose proof Hs as (Hlen & _). split.
  - destruct i; cbn [Gui.delivered Gui.event_of] in *;
      try destruct (Gui.complete_btn _); unfold bound; cbn [target];
      try done; rewrite <- Hlen; tauto.
  - destruct i as [answer|c answer|c|c|c|c wy wh py ry|c];
      cbn [Gui.delivered Gui.handle Gui.event_of handle] in *.
    + left. destruct (gui_add_task_dialog answer io g Hs) as (g' & ? & ? & <-). eauto.
    + destruct Hd as [Hlt Halive]. left.
      destruct (gui_edit c answer io g Hs Hlt Halive) as (g' & ? & ? & <-). eauto.
    + destruct Hd as [Hlt Halive]. left.
      pose proof (shown_button g c Hs Hlt Halive) as Hbtn.
      destruct (Gui.complete_btn (Gui.widgets g !!! c)); cbn [handle].
      * destruct (gui_complete c true io g Hs Hbtn) as (g' & ? & ? & <-). eauto.
      * destruct (gui_restore c true io g Hs Hbtn) as (g' & ? & ? & <-). eauto.
    + destruct Hd as [Hlt Halive]. left.
      destruct (gui_delete_card c io g Hs Hlt Halive) as (g' & ? & ? & <-). eauto.
    + destruct Hd as (Hlt & Halive & Hdrag). left.
      pose proof (shown_draggable g c Hs Hlt Halive Hdrag) as Hin.
      destruct (gui_on_drag_start c g Hs Hin) as (g' & ? & ? & <-). eauto.
    + destruct Hd as (Hlt & Halive & Hdrag).
      pose proof (shown_draggable g c Hs Hlt Halive Hdrag) as Hin.
      destruct (gui_on_drag_motion c wy wh py ry g Hs Hin)
        as [(g' & ? & ? & ?)|[? ?]]; [left; eauto | right; done].
    + destruct Hd as (Hlt & Halive & Hdrag). left.
      pose proof (shown_draggable g c Hs Hlt Halive Hdrag) as Hin.
      destruct (gui_on_drag_release c io g Hs Hin) as (g' & ? & ? & <-). eauto.
Qed.

Lemma shown_run g evs g' : Gui.shown g -> Gui.run g evs g' -> Gui.shown g'.
Proof.
  intros Hs Hrun. induction Hrun as [|g i io evs g'' Hd Hrun IH]; [done|].
  apply IH.
  destruct (gui_step i io g Hs Hd) as (_ & [(g1 & -> & Hs1 & _)|[-> _]]); done.
Qed.

Lemma shown_reachable g : Gui.reachable g -> Gui.shown g.
Proof.
  intros (disk & io & g0 & evs & Hinit & Hrun).
  destruct (gui_init disk io) as (g0' & Hinit' & Hs0 & _).
  rewrite Hinit in Hinit'. injection Hinit' as <-.
  by eapply shown_run.
Qed.

Lemma run_of_gui_run g evs g' :
  Gui.shown g -> Gui.run g evs g' ->
  exists evs', run (Gui.board g) evs' (Gui.board g').
Proof.
  intros Hs Hrun. induction Hrun as [|g i io evs g'' Hd Hrun IH].
  - exists []. constructor.
  - destruct (gui_step i io g Hs Hd) as (Hb & [(g1 & Hh & Hs1 & Hdata)|[Hh _]]);
      rewrite Hh in *; cbn [Gui.state_of] in *.
    + destruct (IH Hs1) as [evs' Hevs'].
      exists ((Gui.event_of i g, io) :: evs'). by econstructor.
    + by apply IH.
Qed.

End loop.

(** ** What the window shows *)

(** A window to try things on: started without a file, the first card
    completed, the second pressed. *)
Lemma reachable_example :
  let g0 := Gui.state_of (Gui.init None Written) in
  let g1 := Gui.state_of (Gui.handle (Gui.ClickComplete 0) Written g0) in
  let g2 := Gui.state_of (Gui.handle (Gui.Press 1) Written g1) in
  Gui.reachable g2.
Proof.
  cbv zeta.
  exists None, Written, (Gui.state_of (Gui.init None Written)),
    [(Gui.ClickComplete 0, Written); (Gui.Press 1, Written)].
  split; [by vm_compute|].
  econstructor; [vm_compute; split; [lia|reflexivity]|].
  econstructor; [vm_compute; split; [lia|split; reflexivity]|].
  constructor.
Defined.


(** The visual order is the logical order: after every handler, also after
    every single motion of a drag, the frames packed in the active area are
    the cards of [tasks], in that order, and those packed in the completed
    area are the cards of [completed], in that order. *)
Theorem gui_screen_order (g : Gui.gui) :
  Gui.reachable g ->
  Gui.active_slaves g = tasks (Gui.board g) /\
  Gui.completed_slaves g = completed (Gui.board g).
Proof. intros (_ & _ & Ha & Hc & _)%shown_reachable. done. Qed.

Lemma gui_screen_order_witness :
  let g0 := Gui.state_of (Gui.init None Written) in
  let g1 := Gui.state_of (Gui.handle (Gui.ClickComplete 0) Written g0) in
  let g2 := Gui.state_of (Gui.handle (Gui.Press 1) Written g1) in
  Gui.active_slaves g2 = [1; 2; 3] /\ Gui.completed_slaves g2 = [4].
Proof. exact (gui_screen_order _ reachable_example). Defined.

(** What a card can do follows the list it is in.  A card of [tasks] has
    its frame in the active area, its drag bindings, and a button that
    completes it; a card of [completed] has its frame in the completed area,
    no drag bindings, and a button that restores it; a card in neither list
    has been destroyed.  So no widget is left on screen for a card that is
    off the board, and none is missing for a card that is on it. *)
Theorem gui_card_widgets (g : Gui.gui) (c : card) :
  Gui.reachable g -> c < length (Gui.widgets g) ->
  let w := Gui.widgets g !!! c in
  (c ∈ tasks (Gui.board g) ->
     Gui.destroyed w = false /\ Gui.parent_frame w = Gui.ActiveArea /\
     Gui.drag_bound w = true /\ Gui.complete_btn w = Gui.run_complete) /\
  (c ∈ completed (Gui.board g) ->
     Gui.destroyed w = false /\ Gui.parent_frame w = Gui.CompletedArea /\
     Gui.drag_bound w = false /\ Gui.complete_btn w = Gui.run_restore) /\
  (c ∉ tasks (Gui.board g) -> c ∉ completed (Gui.board g) ->
     Gui.destroyed w = true) /\
  length (Gui.widgets g) = length (heap (Gui.board g)).
Proof.
  intros (Hlen & _ & _ & _ & Hon_a & Hon_c & Hdead)%shown_reachable Hc. cbv zeta.
  split; [|split; [|split]].
  - intros Hin. destruct (Hon_a c Hin) as (? & ? & ? & ? & _). done.
  - intros Hin. destruct (Hon_c c Hin) as (? & ? & ? & ? & _). done.
  - by apply Hdead.
  - done.
Qed.

Lemma gui_card_widgets_witness :
  let g0 := Gui.state_of (Gui.init None Written) in
  let g1 := Gui.state_of (Gui.handle (Gui.ClickComplete 0) Written g0) in
  let g2 := Gui.state_of (Gui.handle (Gui.Press 1) Written g1) in
  Gui.destroyed (Gui.widgets g2 !!! 0) = true /\
  Gui.drag_bound (Gui.widgets g2 !!! 4) = false /\
  Gui.complete_btn (Gui.widgets g2 !!! 4) = Gui.run_restore.
Proof.
  cbv zeta.
  destruct (gui_card_widgets _ 0 reachable_example) as (_ & _ & H0 & _);
    [vm_compute; lia|].
  destruct (gui_card_widgets _ 4 reachable_example) as (_ & H4 & _);
    [vm_compute; lia|].
  split; [apply H0; decide_closed|].
  destruct H4 as (_ & _ & Hdrag & Hbtn); [decide_closed|].
  exact (conj Hdrag Hbtn).
Defined.

(** The label of every card on the board shows the card's text, also after
    an edit; the frame of an active card is magenta exactly while
    [_drag_index] is set and cyan otherwise, and the frame of a completed
    card is lime. *)
Theorem gui_labels (g : Gui.gui) (c : card) :
  Gui.reachable g ->
  let w := Gui.widgets g !!! c in
  (c ∈ tasks (Gui.board g) ->
     Gui.title_text w = text_of (Gui.board g) c /\
     Gui.shadow_bg w = match drag_index (heap (Gui.board g) !!! c) with
                       | Some _ => Gui.NEON_MAGENTA
                       | None => Gui.NEON_CYAN
                       end) /\
  (c ∈ completed (Gui.board g) ->
     Gui.title_text w = text_of (Gui.board g) c /\
     Gui.shadow_bg w = Gui.NEON_LIME).
Proof.
  intros (_ & _ & _ & _ & Hon_a & Hon_c & _)%shown_reachable. cbv zeta. split.
  - intros Hin. destruct (Hon_a c Hin) as (_ & _ & _ & _ & ? & ?). done.
  - intros Hin. destruct (Hon_c c Hin) as (_ & _ & _ & _ & ? & ?). done.
Qed.

Lemma gui_labels_witness :
  let g0 := Gui.state_of (Gui.init None Written) in
  let g1 := Gui.state_of (Gui.handle (Gui.ClickComplete 0) Written g0) in
  let g2 := Gui.state_of (Gui.handle (Gui.Press 1) Written g1) in
  Gui.shadow_bg (Gui.widgets g2 !!! 1) = Gui.NEON_MAGENTA /\
  Gui.title_text (Gui.widgets g2 !!! 4) = VStr (py "Patch proxies to 12.2.18").
Proof.
  cbv zeta.
  destruct (gui_labels _ 1 reachable_example) as (H1 & _).
  destruct (gui_labels _ 4 reachable_example) as (_ & H4).
  split.
  - destruct H1 as [_ H1]; [decide_closed|]. exact H1.
  - destruct H4 as [H4 _]; [decide_closed|]. exact H4.
Defined.



(** The board of every window the program can show is a board the data
    model reaches: the handlers above, widgets left out, are the handlers
    the window runs. *)
Theorem gui_refines_board (g : Gui.gui) :
  Gui.reachable g -> reachable (Gui.board g).
Proof.
  intros (disk & io & g0 & evs & Hinit & Hrun).
  destruct (gui_init disk io) as (g0' & Hinit' & Hs0 & Hb0).
  rewrite Hinit in Hinit'. injection Hinit' as <-.
  destruct (run_of_gui_run g0 evs g Hs0 Hrun) as [evs' Hevs'].
  exists disk, io, evs'. by rewrite <- Hb0.
Qed.

Lemma gui_refines_board_witness :
  let g0 := Gui.state_of (Gui.init None Written) in
  let g1 := Gui.state_of (Gui.handle (Gui.ClickComplete 0) Written g0) in
  let g2 := Gui.state_of (Gui.handle (Gui.Press 1) Written g1) in
  reachable (Gui.board g2).
Proof. exact (gui_refines_board _ reachable_example). Defined.
